(** * group-server.js: the scoreboard registry, its ranking and its persistence

    A shallow embedding of the core of [src/group-server.js] (the participant
    registry held in [state.participants], [cleanName], [safeNum],
    [scoreSort], [participantsList], [persistState], [loadState],
    [normalizeStatsPatch] and the join / update branches of [handleApi]),
    followed by the properties of the specification stated over it.

    What surrounds the core enters the model as data:
    - a request is the JSON value that [readBody] resolved;
    - the data file is what [JSON.parse] made of it, if anything;
    - [createId()] and each reading of [nowIso()] are arguments;
    - a call of [fs.writeFileSync] is an event, and is taken to return;
    - the texts of numbers and the collation of names are the engine's
      ([Builtins]).
    The HTTP transport, the static file server and the text of the HTML table
    are outside the model. *)

From Stdlib Require Import List ZArith NArith QArith Qcanon Bool String Ascii Lia DecimalString Sorted Permutation.
Import ListNotations.

Close Scope Qc_scope.
Close Scope Q_scope.
Set Warnings "-register-all".
Local Open Scope list_scope.

(* ================================================================== *)
(** * The JavaScript values the program handles *)
(* ================================================================== *)

Module JS.

(** ** Numbers

    A JavaScript Number is a finite double, an infinity or NaN.  A finite double
    is represented by the rational it denotes.  The program only adds nothing,
    subtracts two finite numbers, takes a maximum with 0 and tests a sign or
    [!== 0]; the rounding of a difference of two finite doubles changes neither
    its sign nor whether it is zero, so the rational difference carries the
    same observations.  The negative zero is not distinguished from zero (the
    program never divides by it and [-0 !== 0] is false). *)

Inductive number : Type :=
  | Fin (q : Qc)
  | PosInf
  | NegInf
  | NaN.

Definition zero : number := Fin (Q2Qc 0).
Definition of_Z (z : Z) : number := Fin (Q2Qc (inject_Z z)).

(** [Number.isFinite] *)
Definition isFinite (n : number) : bool :=
  match n with Fin _ => true | _ => false end.

(** [a - b] *)
Definition sub (a b : number) : number :=
  match a, b with
  | NaN, _ | _, NaN => NaN
  | Fin x, Fin y => Fin (x - y)%Qc
  | Fin _, PosInf => NegInf
  | Fin _, NegInf => PosInf
  | PosInf, PosInf => NaN
  | PosInf, _ => PosInf
  | NegInf, NegInf => NaN
  | NegInf, _ => NegInf
  end.

(** [Math.max(a, b)] *)
Definition Math_max (a b : number) : number :=
  match a, b with
  | NaN, _ | _, NaN => NaN
  | PosInf, _ | _, PosInf => PosInf
  | NegInf, y => y
  | x, NegInf => x
  | Fin x, Fin y => match (x ?= y)%Qc with Lt => Fin y | _ => Fin x end
  end.

(** [n === 0], [n < 0], [n > 0] *)
Definition is_zero (n : number) : bool :=
  match n with
  | Fin q => match (q ?= Q2Qc 0)%Qc with Eq => true | _ => false end
  | _ => false
  end.

Definition negative (n : number) : bool :=
  match n with
  | Fin q => match (q ?= Q2Qc 0)%Qc with Lt => true | _ => false end
  | NegInf => true
  | _ => false
  end.

Definition positive (n : number) : bool :=
  match n with
  | Fin q => match (q ?= Q2Qc 0)%Qc with Gt => true | _ => false end
  | PosInf => true
  | _ => false
  end.

(** ** Strings: sequences of UTF-16 code units *)

Definition jsstring : Type := list N.

Definition js (s : string) : jsstring :=
  map N_of_ascii (list_ascii_of_string s).

Definition str_eq_dec : forall s t : jsstring, {s = t} + {s <> t} :=
  list_eq_dec N.eq_dec.

Definition str_eqb (s t : jsstring) : bool :=
  if str_eq_dec s t then true else false.

(** The code units [String.prototype.trim] strips: WhiteSpace (TAB, VT, FF,
    U+FEFF and the space separators) and LineTerminator (LF, CR, U+2028,
    U+2029). *)
Definition white_space : list N :=
  [9; 10; 11; 12; 13; 32; 160; 5760; 8232; 8233; 8239; 8287; 12288; 65279]%N.

Definition is_white_space (c : N) : bool :=
  existsb (N.eqb c) white_space || ((8192 <=? c) && (c <=? 8202))%N.

Fixpoint trimStart (s : jsstring) : jsstring :=
  match s with
  | c :: s' => if is_white_space c then trimStart s' else s
  | [] => []
  end.

(** [s.trim()] *)
Definition trim (s : jsstring) : jsstring :=
  rev (trimStart (rev (trimStart s))).

(** [s.slice(0, n)] *)
Definition slice0 (n : nat) (s : jsstring) : jsstring := firstn n s.

(** ** Values: what [JSON.parse] produces, and [undefined] *)

Inductive value : Type :=
  | VUndefined
  | VNull
  | VBool (b : bool)
  | VNum (n : number)
  | VStr (s : jsstring)
  | VArr (items : list value)
  | VObj (props : list (jsstring * value)).

(** ** Exceptions *)

Inductive exn : Type :=
  | TypeError.

Inductive result (A : Type) : Type :=
  | Ok (a : A)
  | Throw (e : exn).

Arguments Ok {A} a.
Arguments Throw {A} e.

Definition bind {A B : Type} (r : result A) (k : A -> result B) : result B :=
  match r with
  | Ok a => k a
  | Throw e => Throw e
  end.

Notation "x <- r ;; k" := (bind r (fun x => k))
  (at level 61, r at next level, right associativity).

(** ** Truthiness, [||], [typeof] *)

Definition truthy (v : value) : bool :=
  match v with
  | VUndefined | VNull => false
  | VBool b => b
  | VNum n => negb (is_zero n) && match n with NaN => false | _ => true end
  | VStr s => match s with [] => false | _ => true end
  | VArr _ | VObj _ => true
  end.

(** [v || d] *)
Definition or_else (v d : value) : value :=
  if truthy v then v else d.

(** [typeof v === 'object'] *)
Definition typeof_object (v : value) : bool :=
  match v with
  | VNull | VArr _ | VObj _ => true
  | _ => false
  end.

(** ** Property reads

    [own k props] is the own property [k] of an object parsed from JSON (the
    names of such an object are distinct). *)
Fixpoint own (k : jsstring) (props : list (jsstring * value)) : option value :=
  match props with
  | [] => None
  | (k', v) :: rest => if str_eq_dec k k' then Some v else own k rest
  end.

Definition has_own (k : jsstring) (props : list (jsstring * value)) : bool :=
  match own k props with Some _ => true | None => false end.

(** [v.k] for the property names the program reads ([id], [name], [stats],
    [participants], [updatedAt], the counters and the mini-game fields): none
    of them is a property of [Object.prototype], [Array.prototype] or of the
    wrappers of the primitives, so a value that does not own [k] gives
    [undefined]; reading a property of [null] or [undefined] throws. *)
Definition get (v : value) (k : jsstring) : result value :=
  match v with
  | VUndefined | VNull => Throw TypeError
  | VObj props => Ok (match own k props with Some x => x | None => VUndefined end)
  | _ => Ok VUndefined
  end.

(** ** The built-ins the engine supplies

    The text of a Number, the number a String denotes and the collation of the
    Hebrew locale are the engine's; the program is modelled over any of them. *)
Class Builtins : Type := {
  (** [Number.prototype.toString] *)
  NumberToString : number -> jsstring;
  (** the StringToNumber conversion behind [Number(s)] *)
  StringToNumber : jsstring -> number;
  (** [a.localeCompare(b, 'he')]: negative, zero or positive *)
  localeCompare_he : jsstring -> jsstring -> Z
}.

Section Conversions.
Context {B : Builtins}.

(** [String(v)].  An array joins the texts of its items with commas, an item
    [null] or [undefined] giving the empty text.  An object parsed from JSON
    has no callable property of its own: with an own [toString] neither
    [toString] nor [valueOf] yields a primitive and the conversion throws;
    without one, [Object.prototype.toString] answers. *)
Fixpoint ToString (v : value) : result jsstring :=
  match v with
  | VUndefined => Ok (js "undefined")
  | VNull => Ok (js "null")
  | VBool true => Ok (js "true")
  | VBool false => Ok (js "false")
  | VNum n => Ok (NumberToString n)
  | VStr s => Ok s
  | VArr items =>
      (fix join (l : list value) : result jsstring :=
         match l with
         | [] => Ok []
         | x :: rest =>
             sx <- match x with
                   | VUndefined | VNull => Ok []
                   | _ => ToString x
                   end ;;
             match rest with
             | [] => Ok sx
             | _ => srest <- join rest ;; Ok (sx ++ js "," ++ srest)
             end
         end) items
  | VObj props =>
      if has_own (js "toString") props then Throw TypeError
      else Ok (js "[object Object]")
  end.

(** [Number(v)] *)
Definition ToNumber (v : value) : result number :=
  match v with
  | VUndefined => Ok NaN
  | VNull => Ok zero
  | VBool true => Ok (of_Z 1)
  | VBool false => Ok zero
  | VNum n => Ok n
  | VStr s => Ok (StringToNumber s)
  | VArr _ | VObj _ => s <- ToString v ;; Ok (StringToNumber s)
  end.

End Conversions.

(** ** [Array.prototype.sort]

    A stable sort: an element moves behind a later one only when the
    comparator is positive on the pair.  Under a comparator that is a total
    preorder the stable sorted arrangement is unique, so this insertion sort
    returns what the engine's sort returns; an exception of the comparator
    leaves the sort. *)
Section Sort.
Context {A : Type} (comparefn : A -> A -> result number).

Fixpoint sort_insert (x : A) (l : list A) : result (list A) :=
  match l with
  | [] => Ok [x]
  | y :: rest =>
      c <- comparefn x y ;;
      if positive c then (rest' <- sort_insert x rest ;; Ok (y :: rest'))
      else Ok (x :: y :: rest)
  end.

Fixpoint sort (l : list A) : result (list A) :=
  match l with
  | [] => Ok []
  | x :: rest => sorted <- sort rest ;; sort_insert x sorted
  end.

End Sort.

End JS.

Import JS.

(* ================================================================== *)
(** * The program *)
(* ================================================================== *)

(** ** Participant records

    The eleven properties the program gives a record and reads from it.  A
    property the object does not own is [None]; [updatedAt] can hold any value,
    since [loadState] keeps what the file gave. *)
Record participant : Type := {
  id : option jsstring;
  name : option jsstring;
  totalMistakes : option number;
  roundMistakes : option number;
  completedRounds : option number;
  totalFound : option number;
  lastRoundMs : option number;
  bestRoundMs : option number;
  currentMiniGame : option jsstring;
  currentMiniGameIndex : option number;
  updatedAt : value
}.

(** The value a read of a property gives. *)
Definition num_prop (o : option number) : value :=
  match o with Some n => VNum n | None => VUndefined end.

Definition str_prop (o : option jsstring) : value :=
  match o with Some s => VStr s | None => VUndefined end.

(** [{}] read as a record: no property is owned. *)
Definition empty_object : participant := {|
  id := None; name := None;
  totalMistakes := None; roundMistakes := None; completedRounds := None;
  totalFound := None; lastRoundMs := None; bestRoundMs := None;
  currentMiniGame := None; currentMiniGameIndex := None;
  updatedAt := VUndefined
|}.

(** Assignments [next.f = v]. *)
Definition set_name (s : jsstring) (p : participant) : participant :=
  {| id := id p; name := Some s;
     totalMistakes := totalMistakes p; roundMistakes := roundMistakes p;
     completedRounds := completedRounds p; totalFound := totalFound p;
     lastRoundMs := lastRoundMs p; bestRoundMs := bestRoundMs p;
     currentMiniGame := currentMiniGame p;
     currentMiniGameIndex := currentMiniGameIndex p;
     updatedAt := updatedAt p |}.

Definition set_currentMiniGame (s : jsstring) (p : participant) : participant :=
  {| id := id p; name := name p;
     totalMistakes := totalMistakes p; roundMistakes := roundMistakes p;
     completedRounds := completedRounds p; totalFound := totalFound p;
     lastRoundMs := lastRoundMs p; bestRoundMs := bestRoundMs p;
     currentMiniGame := Some s;
     currentMiniGameIndex := currentMiniGameIndex p;
     updatedAt := updatedAt p |}.

Definition set_currentMiniGameIndex (n : number) (p : participant) : participant :=
  {| id := id p; name := name p;
     totalMistakes := totalMistakes p; roundMistakes := roundMistakes p;
     completedRounds := completedRounds p; totalFound := totalFound p;
     lastRoundMs := lastRoundMs p; bestRoundMs := bestRoundMs p;
     currentMiniGame := currentMiniGame p;
     currentMiniGameIndex := Some n;
     updatedAt := updatedAt p |}.

Definition set_totalMistakes (n : number) (p : participant) : participant :=
  {| id := id p; name := name p;
     totalMistakes := Some n; roundMistakes := roundMistakes p;
     completedRounds := completedRounds p; totalFound := totalFound p;
     lastRoundMs := lastRoundMs p; bestRoundMs := bestRoundMs p;
     currentMiniGame := currentMiniGame p;
     currentMiniGameIndex := currentMiniGameIndex p;
     updatedAt := updatedAt p |}.

Definition set_roundMistakes (n : number) (p : participant) : participant :=
  {| id := id p; name := name p;
     totalMistakes := totalMistakes p; roundMistakes := Some n;
     completedRounds := completedRounds p; totalFound := totalFound p;
     lastRoundMs := lastRoundMs p; bestRoundMs := bestRoundMs p;
     currentMiniGame := currentMiniGame p;
     currentMiniGameIndex := currentMiniGameIndex p;
     updatedAt := updatedAt p |}.

Definition set_completedRounds (n : number) (p : participant) : participant :=
  {| id := id p; name := name p;
     totalMistakes := totalMistakes p; roundMistakes := roundMistakes p;
     completedRounds := Some n; totalFound := totalFound p;
     lastRoundMs := lastRoundMs p; bestRoundMs := bestRoundMs p;
     currentMiniGame := currentMiniGame p;
     currentMiniGameIndex := currentMiniGameIndex p;
     updatedAt := updatedAt p |}.

Definition set_totalFound (n : number) (p : participant) : participant :=
  {| id := id p; name := name p;
     totalMistakes := totalMistakes p; roundMistakes := roundMistakes p;
     completedRounds := completedRounds p; totalFound := Some n;
     lastRoundMs := lastRoundMs p; bestRoundMs := bestRoundMs p;
     currentMiniGame := currentMiniGame p;
     currentMiniGameIndex := currentMiniGameIndex p;
     updatedAt := updatedAt p |}.

Definition set_lastRoundMs (n : number) (p : participant) : participant :=
  {| id := id p; name := name p;
     totalMistakes := totalMistakes p; roundMistakes := roundMistakes p;
     completedRounds := completedRounds p; totalFound := totalFound p;
     lastRoundMs := Some n; bestRoundMs := bestRoundMs p;
     currentMiniGame := currentMiniGame p;
     currentMiniGameIndex := currentMiniGameIndex p;
     updatedAt := updatedAt p |}.

Definition set_bestRoundMs (n : number) (p : participant) : participant :=
  {| id := id p; name := name p;
     totalMistakes := totalMistakes p; roundMistakes := roundMistakes p;
     completedRounds := completedRounds p; totalFound := totalFound p;
     lastRoundMs := lastRoundMs p; bestRoundMs := Some n;
     currentMiniGame := currentMiniGame p;
     currentMiniGameIndex := currentMiniGameIndex p;
     updatedAt := updatedAt p |}.

Definition set_updatedAt (v : value) (p : participant) : participant :=
  {| id := id p; name := name p;
     totalMistakes := totalMistakes p; roundMistakes := roundMistakes p;
     completedRounds := completedRounds p; totalFound := totalFound p;
     lastRoundMs := lastRoundMs p; bestRoundMs := bestRoundMs p;
     currentMiniGame := currentMiniGame p;
     currentMiniGameIndex := currentMiniGameIndex p;
     updatedAt := v |}.

Section Program.
Context {B : Builtins}.

(** ** [cleanName], [safeNum], [scoreSort] *)

(** [String(value || '').trim().slice(0, 28)] *)
Definition cleanName (v : value) : result jsstring :=
  s <- ToString (or_else v (VStr [])) ;;
  Ok (slice0 28 (trim s)).

(** [safeNum(value, fallback)]; the source's default [fallback = 0] is written
    out at the calls. *)
Definition safeNum (v : value) (fallback : number) : result number :=
  n <- ToNumber v ;;
  Ok (if isFinite n then n else fallback).

Definition scoreSort (a b : participant) : result number :=
  nb <- safeNum (num_prop (completedRounds b)) zero ;;
  na <- safeNum (num_prop (completedRounds a)) zero ;;
  let roundsDiff := sub nb na in
  if negb (is_zero roundsDiff) then Ok roundsDiff
  else
    ma <- safeNum (num_prop (totalMistakes a)) zero ;;
    mb <- safeNum (num_prop (totalMistakes b)) zero ;;
    let mistakesDiff := sub ma mb in
    if negb (is_zero mistakesDiff) then Ok mistakesDiff
    else
      sa <- ToString (or_else (str_prop (name a)) (VStr [])) ;;
      sb <- ToString (or_else (str_prop (name b)) (VStr [])) ;;
      Ok (of_Z (localeCompare_he sa sb)).

End Program.

(** ** The registry [state.participants]

    An ordinary object created by [{}]: its own properties, in the order
    [Object.values] enumerates them (array-index names first, ascending, then
    the other names in order of creation), over the prototype
    [Object.prototype]. *)
Record state : Type := {
  participants : list (jsstring * participant)
}.

Definition initial_state : state := {| participants := [] |}.

(** The names [Object.prototype] answers to. *)
Definition Object_prototype_names : list jsstring :=
  map js ["constructor"; "__defineGetter__"; "__defineSetter__";
          "hasOwnProperty"; "__lookupGetter__"; "__lookupSetter__";
          "isPrototypeOf"; "propertyIsEnumerable"; "toString"; "valueOf";
          "__proto__"; "toLocaleString"]%string.

(** What [state.participants[id]] evaluates to: a record the registry owns, a
    member of [Object.prototype] (a function, or the prototype itself for
    [__proto__]: an object that owns no enumerable property), or [undefined]. *)
Inductive property : Type :=
  | Own (p : participant)
  | Inherited
  | NoProperty.

Fixpoint own_record (k : jsstring) (l : list (jsstring * participant))
  : option participant :=
  match l with
  | [] => None
  | (k', p) :: rest => if str_eq_dec k k' then Some p else own_record k rest
  end.

Definition participants_get (st : state) (k : jsstring) : property :=
  match own_record k (participants st) with
  | Some p => Own p
  | None =>
      if existsb (str_eqb k) Object_prototype_names then Inherited
      else NoProperty
  end.

(** [!existing] is false for an object, true for [undefined]. *)
Definition is_object (e : property) : bool :=
  match e with NoProperty => false | _ => true end.

(** [{ ...existing }] *)
Definition spread (e : property) : participant :=
  match e with Own p => p | _ => empty_object end.

(** The array index a property name denotes: the canonical decimal text of an
    integer below 2^32 - 1. *)
Definition digit (c : N) : option N :=
  if ((48 <=? c) && (c <=? 57))%N then Some (c - 48)%N else None.

Fixpoint digits_value (acc : N) (s : jsstring) : option N :=
  match s with
  | [] => Some acc
  | c :: rest =>
      match digit c with
      | Some d => digits_value (acc * 10 + d)%N rest
      | None => None
      end
  end.

Definition array_index (k : jsstring) : option N :=
  match k with
  | [] => None
  | c :: rest =>
      if (c =? 48)%N
      then match rest with [] => Some 0%N | _ => None end
      else match digits_value 0%N k with
           | Some n => if (n <? 4294967295)%N then Some n else None
           | None => None
           end
  end.

(** Whether a property created under the name [k] is enumerated before the
    existing property [k']. *)
Definition created_before (k k' : jsstring) : bool :=
  match array_index k, array_index k' with
  | Some n, Some n' => (n <? n')%N
  | Some _, None => true
  | None, _ => false
  end.

Fixpoint replace_own (k : jsstring) (p : participant)
    (l : list (jsstring * participant)) : list (jsstring * participant) :=
  match l with
  | [] => []
  | (k', p') :: rest =>
      if str_eq_dec k k' then (k, p) :: rest
      else (k', p') :: replace_own k p rest
  end.

Fixpoint create_own (k : jsstring) (p : participant)
    (l : list (jsstring * participant)) : list (jsstring * participant) :=
  match l with
  | [] => [(k, p)]
  | (k', p') :: rest =>
      if created_before k k' then (k, p) :: (k', p') :: rest
      else (k', p') :: create_own k p rest
  end.

(** [state.participants[k] = p].  An own property is overwritten in place and
    a new one is created, also over a function inherited under that name.
    Under the name [__proto__], which the registry does not own, the
    assignment runs the setter of [Object.prototype] and replaces the
    prototype of the registry: that is where the model ends ([None]). *)
Definition participants_set (st : state) (k : jsstring) (p : participant)
  : option state :=
  match own_record k (participants st) with
  | Some _ => Some {| participants := replace_own k p (participants st) |}
  | None =>
      if str_eqb k (js "__proto__") then None
      else Some {| participants := create_own k p (participants st) |}
  end.

(** ** Persisted data *)

(** The [payload] of [persistState]. *)
Record snapshot : Type := {
  snapshot_updatedAt : jsstring;
  snapshot_participants : list participant
}.

(** The calls of [fs.writeFileSync], taken to return normally: the JSON file
    with its payload, and the HTML table with the rows it renders. *)
Inductive effect : Type :=
  | WriteData (payload : snapshot)
  | WriteTable (rows : list participant).

(** What [fs.existsSync], [fs.readFileSync] and [JSON.parse] make of the data
    file when the process starts. *)
Inductive data_file : Type :=
  | NoFile
  | Blank
  | Unparsable
  | Parsed (v : value).

(** What [JSON.parse] reads back from the text [JSON.stringify] wrote for a
    value: a number that is not finite is written as [null], an item
    [undefined] of an array too, and a property whose value is [undefined] is
    left out. *)
Fixpoint reparse (v : value) : value :=
  match v with
  | VNum n => if isFinite n then VNum n else VNull
  | VArr items =>
      VArr (map (fun x => match x with VUndefined => VNull | _ => reparse x end)
                items)
  | VObj props =>
      VObj ((fix go (l : list (jsstring * value)) : list (jsstring * value) :=
               match l with
               | [] => []
               | (k, VUndefined) :: rest => go rest
               | (k, x) :: rest => (k, reparse x) :: go rest
               end) props)
  | _ => v
  end.

(** The object literal of a record, in the order the program writes it. *)
Definition participant_value (p : participant) : value :=
  VObj [ (js "id", str_prop (id p));
         (js "name", str_prop (name p));
         (js "totalMistakes", num_prop (totalMistakes p));
         (js "roundMistakes", num_prop (roundMistakes p));
         (js "completedRounds", num_prop (completedRounds p));
         (js "totalFound", num_prop (totalFound p));
         (js "lastRoundMs", num_prop (lastRoundMs p));
         (js "bestRoundMs", num_prop (bestRoundMs p));
         (js "currentMiniGame", str_prop (currentMiniGame p));
         (js "currentMiniGameIndex", num_prop (currentMiniGameIndex p));
         (js "updatedAt", updatedAt p) ].

(** The data file after [persistState] wrote [payload], as the next start of
    the process parses it. *)
Definition written_file (payload : snapshot) : data_file :=
  Parsed (reparse
    (VObj [ (js "updatedAt", VStr (snapshot_updatedAt payload));
            (js "participants",
             VArr (map participant_value (snapshot_participants payload))) ])).

Section Engine.
Context {B : Builtins}.

(** ** [participantsList], [persistState] *)

(** [Object.values(state.participants).sort(scoreSort)] *)
Definition participantsList (st : state) : result (list participant) :=
  sort scoreSort (map snd (participants st)).

(** [formatUpdated(iso)], as far as it can throw: [new Date(iso)] converts an
    object or an array to a primitive, which throws where [String] does; the
    text it returns is outside the model. *)
Definition formatUpdated (iso : value) : result unit :=
  if negb (truthy iso) then Ok tt
  else match iso with
       | VArr _ | VObj _ => _ <- ToString iso ;; Ok tt
       | _ => Ok tt
       end.

Fixpoint render_rows (rows : list participant) : result unit :=
  match rows with
  | [] => Ok tt
  | row :: rest => _ <- formatUpdated (updatedAt row) ;; render_rows rest
  end.

(** [buildScoreboardHtml()]: the rows it renders.  The other cells of a row
    are texts of strings and of [safeNum] results and do not throw. *)
Definition buildScoreboardHtml (st : state) : result (list participant) :=
  rows <- participantsList st ;;
  _ <- render_rows rows ;;
  Ok rows.

(** [persistState()], [now] being the reading of [nowIso()] for the payload:
    the writes it makes, and how it ends. *)
Definition persistState (st : state) (now : jsstring)
  : list effect * result unit :=
  match participantsList st with
  | Throw e => ([], Throw e)
  | Ok ranked =>
      let data :=
        WriteData {| snapshot_updatedAt := now;
                     snapshot_participants := ranked |} in
      match buildScoreboardHtml st with
      | Throw e => ([data], Throw e)
      | Ok rows => ([data; WriteTable rows], Ok tt)
      end
  end.

(** ** [loadState] *)

(** The body of the [forEach] callback for one [row]: the registry it leaves
    (the one it was given when the row is skipped), or the exception it
    throws.  [now] is what [nowIso()] reads while the row is handled. *)
Definition load_row (st : state) (row : value) (now : jsstring)
  : result (option state) :=
  row_id <- get row (js "id") ;;
  s <- ToString (or_else row_id (VStr [])) ;;
  let id := trim s in
  row_name <- get row (js "name") ;;
  name <- cleanName row_name ;;
  match id, name with
  | [], _ | _, [] => Ok (Some st)
  | _, _ =>
      v <- get row (js "totalMistakes") ;; totalMistakes <- safeNum v zero ;;
      v <- get row (js "roundMistakes") ;; roundMistakes <- safeNum v zero ;;
      v <- get row (js "completedRounds") ;; completedRounds <- safeNum v zero ;;
      v <- get row (js "totalFound") ;; totalFound <- safeNum v zero ;;
      v <- get row (js "lastRoundMs") ;; lastRoundMs <- safeNum v zero ;;
      v <- get row (js "bestRoundMs") ;; bestRoundMs <- safeNum v zero ;;
      v <- get row (js "currentMiniGame") ;;
      currentMiniGame <- ToString (or_else v (VStr [])) ;;
      v <- get row (js "currentMiniGameIndex") ;;
      currentMiniGameIndex <- safeNum v zero ;;
      row_updatedAt <- get row (js "updatedAt") ;;
      Ok (participants_set st id
            {| id := Some id;
               name := Some name;
               totalMistakes := Some totalMistakes;
               roundMistakes := Some roundMistakes;
               completedRounds := Some completedRounds;
               totalFound := Some totalFound;
               lastRoundMs := Some lastRoundMs;
               bestRoundMs := Some bestRoundMs;
               currentMiniGame := Some currentMiniGame;
               currentMiniGameIndex := Some currentMiniGameIndex;
               updatedAt := or_else row_updatedAt (VStr now) |})
  end.

(** [list.forEach(...)] inside the [try] of [loadState]: an exception leaves
    the loop and is caught, the rows loaded before it stay.  [now i] is the
    reading of [nowIso()] while row [i] is handled. *)
Fixpoint load_rows (st : state) (rows : list value) (now : nat -> jsstring)
  : option state :=
  match rows with
  | [] => Some st
  | row :: rest =>
      match load_row st row (now 0%nat) with
      | Throw _ => Some st
      | Ok None => None
      | Ok (Some st') => load_rows st' rest (fun i => now (S i))
      end
  end.

Definition loadState (st : state) (file : data_file) (now : nat -> jsstring)
  : option state :=
  match file with
  | NoFile | Blank | Unparsable => Some st
  | Parsed parsed =>
      match get parsed (js "participants") with
      | Throw _ => Some st
      | Ok (VArr list) => load_rows st list now
      | Ok _ => load_rows st [] now
      end
  end.

(** ** [normalizeStatsPatch] *)

(** [if (patch.f !== undefined) next.f = Math.max(0, safeNum(patch.f))] *)
Definition patch_counter (patch : value) (f : jsstring)
    (assign : number -> participant -> participant) (next : participant)
  : result participant :=
  v <- get patch f ;;
  match v with
  | VUndefined => Ok next
  | _ => n <- safeNum v zero ;; Ok (assign (Math_max zero n) next)
  end.

Definition normalizeStatsPatch (existing : participant) (patch : value)
    (now : jsstring) : result participant :=
  let next := existing in
  v <- get patch (js "name") ;;
  name <- cleanName v ;;
  let next := match name with [] => next | _ => set_name name next end in
  v <- get patch (js "currentMiniGame") ;;
  next <- match v with
          | VUndefined => Ok next
          | _ => s <- ToString (or_else v (VStr [])) ;;
                 Ok (set_currentMiniGame s next)
          end ;;
  v <- get patch (js "currentMiniGameIndex") ;;
  next <- match v with
          | VUndefined => Ok next
          | _ => n <- safeNum v zero ;; Ok (set_currentMiniGameIndex n next)
          end ;;
  next <- patch_counter patch (js "totalMistakes") set_totalMistakes next ;;
  next <- patch_counter patch (js "roundMistakes") set_roundMistakes next ;;
  next <- patch_counter patch (js "completedRounds") set_completedRounds next ;;
  next <- patch_counter patch (js "totalFound") set_totalFound next ;;
  next <- patch_counter patch (js "lastRoundMs") set_lastRoundMs next ;;
  next <- patch_counter patch (js "bestRoundMs") set_bestRoundMs next ;;
  Ok (set_updatedAt (VStr now) next).

(** ** The join and update branches of [handleApi] *)

Inductive error : Type :=
  | name_required
  | participant_not_found
  | thrown (e : exn).

(** What [sendJson] is called with. *)
Inductive reply : Type :=
  | Joined (id : jsstring) (p : participant) (ranked : list participant)
  | Updated (p : participant) (ranked : list participant)
  | Failed (statusCode : N) (e : error).

(** The outcome of a request: the registry it leaves, the reply and the file
    writes it made; [None] where the model ends (see [participants_set]). *)
Definition outcome : Type := option (state * reply * list effect).

(** The [catch] of a branch: an exception whose message is not
    [invalid_json] answers 500. *)
Definition caught (st : state) (e : exn) (writes : list effect) : outcome :=
  Some (st, Failed 500 (thrown e), writes).

(** After [state.participants[id] = ...]: [persistState()] and the reply,
    [participantsList()] being evaluated once more for it. *)
Definition persist_and_reply (st : state) (now : jsstring)
    (answer : list participant -> reply) : outcome :=
  match persistState st now with
  | (writes, Throw e) => caught st e writes
  | (writes, Ok _) =>
      match participantsList st with
      | Throw e => caught st e writes
      | Ok ranked => Some (st, answer ranked, writes)
      end
  end.

(** [POST /group-api/join] with the parsed [body]; [new_id] is what
    [createId()] returns, [now] the reading of [nowIso()] for the record and
    [now'] the one for the payload. *)
Definition join (st : state) (body : value) (new_id : jsstring)
    (now now' : jsstring) : outcome :=
  match (v <- get body (js "name") ;; cleanName v) with
  | Throw e => caught st e []
  | Ok [] => Some (st, Failed 400 name_required, [])
  | Ok name =>
      let participant :=
        {| id := Some new_id;
           name := Some name;
           totalMistakes := Some zero;
           roundMistakes := Some zero;
           completedRounds := Some zero;
           totalFound := Some zero;
           lastRoundMs := Some zero;
           bestRoundMs := Some zero;
           currentMiniGame := Some [];
           currentMiniGameIndex := Some zero;
           updatedAt := VStr now |} in
      match participants_set st new_id participant with
      | None => None
      | Some st' => persist_and_reply st' now' (Joined new_id participant)
      end
  end.

(** [POST /group-api/update] with the parsed [body]. *)
Definition update (st : state) (body : value) (now now' : jsstring) : outcome :=
  match (v <- get body (js "id") ;; ToString (or_else v (VStr []))) with
  | Throw e => caught st e []
  | Ok s =>
      let id := trim s in
      let existing := participants_get st id in
      match id with
      | [] => Some (st, Failed 404 participant_not_found, [])
      | _ =>
          if negb (is_object existing)
          then Some (st, Failed 404 participant_not_found, [])
          else
            match (v <- get body (js "stats") ;;
                   let stats :=
                     if truthy body && typeof_object v && truthy v
                     then v else VObj [] in
                   normalizeStatsPatch (spread existing) stats now) with
            | Throw e => caught st e []
            | Ok next =>
                match participants_set st id next with
                | None => None
                | Some st' => persist_and_reply st' now' (Updated next)
                end
            end
      end
  end.

(** The start of the process: [loadState(); persistState();]. *)
Definition startup (file : data_file) (now : nat -> jsstring) (now' : jsstring)
  : option (state * (list effect * result unit)) :=
  match loadState initial_state file now with
  | None => None
  | Some st => Some (st, persistState st now')
  end.

End Engine.

(* ================================================================== *)
(** * Vocabulary of the specification *)
(* ================================================================== *)

(** What a counter counts as when two records are compared, in the words of
    the specification: its value when it is a finite number, 0 when it is
    missing or not finite. *)
Definition counted (o : option number) : Qc :=
  match o with
  | Some (Fin q) => q
  | _ => Q2Qc 0
  end.

(** The name two records are collated by: the empty text when missing. *)
Definition shown_name (p : participant) : jsstring :=
  match name p with
  | Some s => s
  | None => []
  end.

(** [a] ranks above [b]: the comparator is negative on [(a, b)], so that the
    sort places [a] first. *)
Definition ranks_above {B : Builtins} (a b : participant) : bool :=
  match scoreSort a b with
  | Ok x => negative x
  | Throw _ => false
  end.

(** A counter that is a finite number, at least 0. *)
Definition counter_ok (o : option number) : Prop :=
  exists q : Qc, o = Some (Fin q) /\ (Q2Qc 0 <= q)%Qc.

Definition counters_ok (p : participant) : Prop :=
  counter_ok (totalMistakes p) /\ counter_ok (roundMistakes p) /\
  counter_ok (completedRounds p) /\ counter_ok (totalFound p) /\
  counter_ok (lastRoundMs p) /\ counter_ok (bestRoundMs p).

(** A property the patch does not carry. *)
Definition absent (patch : value) (k : jsstring) : Prop :=
  get patch k = Ok VUndefined.

(** The record [join] creates. *)
Definition new_participant (new_id name : jsstring) (now : jsstring)
  : participant :=
  {| id := Some new_id;
     name := Some name;
     totalMistakes := Some zero;
     roundMistakes := Some zero;
     completedRounds := Some zero;
     totalFound := Some zero;
     lastRoundMs := Some zero;
     bestRoundMs := Some zero;
     currentMiniGame := Some [];
     currentMiniGameIndex := Some zero;
     updatedAt := VStr now |}.

(** ** The comparator and the sort as total functions

    On records, [scoreSort] never throws; [score] is the number it returns and
    [sort_by score] the arrangement the sort returns. *)
Definition score {B : Builtins} (a b : participant) : number :=
  let roundsDiff :=
    (counted (completedRounds b) - counted (completedRounds a))%Qc in
  match (roundsDiff ?= Q2Qc 0)%Qc with
  | Eq =>
      let mistakesDiff :=
        (counted (totalMistakes a) - counted (totalMistakes b))%Qc in
      match (mistakesDiff ?= Q2Qc 0)%Qc with
      | Eq => of_Z (localeCompare_he (shown_name a) (shown_name b))
      | _ => Fin mistakesDiff
      end
  | _ => Fin roundsDiff
  end.

Section PureSort.
Context {A : Type} (cmp : A -> A -> number).

Fixpoint insert_by (x : A) (l : list A) : list A :=
  match l with
  | [] => [x]
  | y :: rest =>
      if positive (cmp x y) then y :: insert_by x rest else x :: y :: rest
  end.

Fixpoint sort_by (l : list A) : list A :=
  match l with
  | [] => []
  | x :: rest => insert_by x (sort_by rest)
  end.

(** [x] may stand directly before [y] in a sorted arrangement. *)
Definition in_order (x y : A) : Prop := positive (cmp x y) = false.

End PureSort.

(** A registry whose rows the HTML table can show: the [updatedAt] of each
    converts to a date without an exception (a string, a number and a boolean
    always do). *)
Definition renders {B : Builtins} (p : participant) : Prop :=
  formatUpdated (updatedAt p) = Ok tt.

Definition renderable {B : Builtins} (st : state) : Prop :=
  Forall renders (map snd (participants st)).

(** The name a record is stored under. *)
Definition key_of (p : participant) : jsstring :=
  match id p with
  | Some k => k
  | None => []
  end.

(** A record that [loadState] reads back as it is: its id is a clean text
    that is neither an array index nor [__proto__], its name is not changed by
    [cleanName], its numbers are finite, and its [updatedAt] is truthy and
    survives the JSON text. *)
Definition stored (p : participant) : Prop :=
  (exists k, id p = Some k /\ k <> [] /\ trim k = k /\
             array_index k = None /\ k <> js "__proto__") /\
  (exists nm, name p = Some nm /\ nm <> [] /\ slice0 28 (trim nm) = nm) /\
  (exists q, totalMistakes p = Some (Fin q)) /\
  (exists q, roundMistakes p = Some (Fin q)) /\
  (exists q, completedRounds p = Some (Fin q)) /\
  (exists q, totalFound p = Some (Fin q)) /\
  (exists q, lastRoundMs p = Some (Fin q)) /\
  (exists q, bestRoundMs p = Some (Fin q)) /\
  (exists s, currentMiniGame p = Some s) /\
  (exists q, currentMiniGameIndex p = Some (Fin q)) /\
  truthy (updatedAt p) = true /\
  reparse (updatedAt p) = updatedAt p.

(** A registry of such records, each under its id. *)
Definition well_stored (st : state) : Prop :=
  Forall (fun kp => fst kp = key_of (snd kp) /\ stored (snd kp))
         (participants st) /\
  NoDup (map fst (participants st)).

(** The ranked list of a registry. *)
Definition ranked {B : Builtins} (st : state) : list participant :=
  sort_by score (map snd (participants st)).

(* ================================================================== *)
(** * A stand-in engine and sample data *)
(* ================================================================== *)

(** Built-ins to evaluate the model on concrete inputs: numbers are printed
    and read in decimal where they are integers, and texts are collated by
    their code units.  No property below is specific to them. *)
Module Sample.

Fixpoint codeunit_compare (s t : jsstring) : Z :=
  match s, t with
  | [], [] => 0
  | [], _ :: _ => -1
  | _ :: _, [] => 1
  | c :: s', d :: t' =>
      match (c ?= d)%N with
      | Lt => -1
      | Gt => 1
      | Eq => codeunit_compare s' t'
      end
  end.

Definition print_number (n : number) : jsstring :=
  match n with
  | Fin q => js (NilZero.string_of_int (Z.to_int (Qnum q / Z.pos (Qden q))))
  | PosInf => js "Infinity"
  | NegInf => js "-Infinity"
  | NaN => js "NaN"
  end.

Definition read_number (s : jsstring) : number :=
  match s with
  | [] => zero
  | _ => match digits_value 0%N s with
         | Some n => of_Z (Z.of_N n)
         | None => NaN
         end
  end.

Definition engine : Builtins := {|
  NumberToString := print_number;
  StringToNumber := read_number;
  localeCompare_he := codeunit_compare
|}.

Definition t0 : jsstring := js "2025-03-01T10:00:00.000Z".
Definition t1 : jsstring := js "2025-03-01T10:00:00.001Z".
Definition t2 : jsstring := js "2025-03-01T10:05:00.000Z".
Definition t3 : jsstring := js "2025-03-01T10:05:00.002Z".

Definition uuid1 : jsstring := js "3b241101-e2bb-4255-8caf-4136c566a962".
Definition uuid2 : jsstring := js "9f0c2d7e-51aa-4c3b-b7de-0a1b2c3d4e5f".

(** A record as [join] and later updates leave it. *)
Definition row (i n : string) (rounds mistakes : Z) : participant :=
  {| id := Some (js i);
     name := Some (js n);
     totalMistakes := Some (of_Z mistakes);
     roundMistakes := Some zero;
     completedRounds := Some (of_Z rounds);
     totalFound := Some zero;
     lastRoundMs := Some zero;
     bestRoundMs := Some zero;
     currentMiniGame := Some [];
     currentMiniGameIndex := Some zero;
     updatedAt := VStr t0 |}.

(** Two participants who joined under the same name. *)
Definition dana1 : participant := row "p1" "Dana" 0 0.
Definition dana2 : participant := row "p2" "Dana" 0 0.

(** Scenario C of the specification. *)
Definition rowA : participant := row "a" "A" 3 2.
Definition rowB : participant := row "b" "B" 3 1.

(** A registry holding one participant. *)
Definition one_row : state := {| participants := [(js "p1", row "p1" "Dana" 2 5)] |}.

(** Request bodies. *)
Definition join_body (n : string) : value := VObj [(js "name", VStr (js n))].

Definition update_body (i : string) (stats : value) : value :=
  VObj [(js "id", VStr (js i)); (js "stats", stats)].

Definition id_only_body (i : string) : value := VObj [(js "id", VStr (js i))].

(** A name whose 28th code unit, once trimmed, is a space. *)
Definition long_name : string := "The Incredible Team Alpha-1 Squad".

(** Persisted entries. *)
Definition entry (i n : string) (more : list (jsstring * value)) : value :=
  VObj ((js "id", VStr (js i)) :: (js "name", VStr (js n)) :: more).

Definition file_of (entries : list value) : data_file :=
  Parsed (VObj [(js "updatedAt", VStr t0); (js "participants", VArr entries)]).

End Sample.

(* ================================================================== *)
(** * The rest of the program *)
(* ================================================================== *)

(** ** [escapeHtml] *)

(** [s.replaceAll(c, r)] for a pattern [c] of one code unit and a replacement
    [r] without [$]. *)
Definition replaceAll (c : N) (r : jsstring) (s : jsstring) : jsstring :=
  flat_map (fun x => if (x =? c)%N then r else [x]) s.

Definition escapeHtml {B : Builtins} (v : value) : result jsstring :=
  s <- ToString v ;;
  Ok (replaceAll 39 (js "&#39;")
       (replaceAll 34 (js "&quot;")
         (replaceAll 62 (js "&gt;")
           (replaceAll 60 (js "&lt;")
             (replaceAll 38 (js "&amp;") s))))).

(** What the five replacements amount to for one code unit. *)
Definition escape_unit (c : N) : jsstring :=
  if (c =? 38)%N then js "&amp;"
  else if (c =? 60)%N then js "&lt;"
  else if (c =? 62)%N then js "&gt;"
  else if (c =? 34)%N then js "&quot;"
  else if (c =? 39)%N then js "&#39;"
  else [c].

(** The code units that open or close markup or an attribute value. *)
Definition is_markup (c : N) : bool :=
  ((c =? 60) || (c =? 62) || (c =? 34) || (c =? 39))%N.

(** [strip_prefix p s]: what follows [p] in [s], when [s] starts with [p]. *)
Fixpoint strip_prefix (p s : jsstring) : option jsstring :=
  match p, s with
  | [], _ => Some s
  | _ :: _, [] => None
  | c :: p', d :: s' => if (c =? d)%N then strip_prefix p' s' else None
  end.

(** Reading the five entities back, from the end of the text. *)
Definition unescape_unit (c : N) (decoded : jsstring) : jsstring :=
  if negb (c =? 38)%N then c :: decoded
  else match strip_prefix (js "amp;") decoded with
       | Some rest => 38%N :: rest
       | None =>
       match strip_prefix (js "lt;") decoded with
       | Some rest => 60%N :: rest
       | None =>
       match strip_prefix (js "gt;") decoded with
       | Some rest => 62%N :: rest
       | None =>
       match strip_prefix (js "quot;") decoded with
       | Some rest => 34%N :: rest
       | None =>
       match strip_prefix (js "#39;") decoded with
       | Some rest => 39%N :: rest
       | None => c :: decoded
       end end end end end.

Definition unescapeHtml (t : jsstring) : jsstring :=
  fold_right unescape_unit [] t.

(** ** [readBody] *)

(** How the promise of [readBody] settles. *)
Inductive body_error : Type :=
  | payload_too_large
  | invalid_json
  | stream_error.

Inductive settled : Type :=
  | Resolved (v : value)
  | Rejected (e : body_error).

(** How the request stream finishes after its chunks: with [end] or with
    [error]. *)
Inductive stream_end : Type :=
  | ended
  | errored.

Section Transport.
Context {B : Builtins}.

(** [JSON.parse], [None] when it throws. *)
Variable JSON_parse : jsstring -> option value.

(** The events of the stream, [raw] being the text gathered so far.  Each
    chunk stands for the text [raw += chunk] appends for it: the chunk is a
    [Buffer] (no encoding is set on the stream) and is decoded on its own, so
    the same bytes cut at another place, inside a character, can be other
    texts.  The first settlement of the promise stands. *)
Fixpoint receive (raw : jsstring) (chunks : list jsstring) (fin : stream_end)
  : settled :=
  match chunks with
  | chunk :: rest =>
      let raw := raw ++ chunk in
      if (1000000 <? N.of_nat (List.length raw))%N
      then Rejected payload_too_large
      else receive raw rest fin
  | [] =>
      match fin with
      | errored => Rejected stream_error
      | ended =>
          match raw with
          | [] => Resolved (VObj [])
          | _ => match JSON_parse raw with
                 | Some v => Resolved v
                 | None => Rejected invalid_json
                 end
          end
      end
  end.

Definition readBody (chunks : list jsstring) (fin : stream_end) : settled :=
  receive [] chunks fin.

(** ** [handleApi] *)

Inductive http_method : Type :=
  | GET
  | POST
  | other_method.

Record request : Type := {
  method : http_method;
  pathname : jsstring;
  chunks : list jsstring;
  stream : stream_end
}.

(** What [sendJson] is called with, over the replies of the two branches:
    the scoreboard, a reply of [join] or [update], the refusal of a body that
    [readBody] rejected, and [404 not_found]. *)
Inductive answer : Type :=
  | Listed (updatedAt : jsstring) (ranked : list participant)
  | Answered (r : reply)
  | Refused (statusCode : N) (e : body_error)
  | NotFound.

(** The [catch] of a branch when [readBody] rejected. *)
Definition refused (st : state) (e : body_error)
  : option (state * answer * list effect) :=
  Some (st,
        Refused (match e with invalid_json => 400 | _ => 500 end)%N e,
        []).

Definition answered (o : outcome) : option (state * answer * list effect) :=
  match o with
  | Some (st, r, writes) => Some (st, Answered r, writes)
  | None => None
  end.

(** [handleApi(req, res, pathname)]; what follows [await readBody(req)] runs
    without interruption on the registry as it is then.  [None] also for an
    exception that no [catch] receives (the scoreboard branch has none). *)
Definition handleApi (st : state) (req : request)
    (new_id now now' : jsstring) : option (state * answer * list effect) :=
  match method req with
  | GET =>
      if str_eqb (pathname req) (js "/group-api/scoreboard")
      then match participantsList st with
           | Ok ranked => Some (st, Listed now ranked, [])
           | Throw _ => None
           end
      else Some (st, NotFound, [])
  | POST =>
      if str_eqb (pathname req) (js "/group-api/join")
      then match readBody (chunks req) (stream req) with
           | Rejected e => refused st e
           | Resolved body => answered (join st body new_id now now')
           end
      else if str_eqb (pathname req) (js "/group-api/update")
      then match readBody (chunks req) (stream req) with
           | Rejected e => refused st e
           | Resolved body => answered (update st body now now')
           end
      else Some (st, NotFound, [])
  | other_method => Some (st, NotFound, [])
  end.

End Transport.

(** ** A patch, read apart from the record *)

(** What a patch carries for each field it can set, once normalized. *)
Record patch_content : Type := {
  new_name : option jsstring;
  new_currentMiniGame : option jsstring;
  new_currentMiniGameIndex : option number;
  new_totalMistakes : option number;
  new_roundMistakes : option number;
  new_completedRounds : option number;
  new_totalFound : option number;
  new_lastRoundMs : option number;
  new_bestRoundMs : option number
}.

(** The conversion of a property that is not [undefined]. *)
Definition present {A : Type} (v : value) (convert : value -> result A)
  : result (option A) :=
  match v with
  | VUndefined => Ok None
  | _ => x <- convert v ;; Ok (Some x)
  end.

Section ReadPatch.
Context {B : Builtins}.

Definition read_counter (patch : value) (f : jsstring) : result (option number) :=
  v <- get patch f ;;
  present v (fun v => n <- safeNum v zero ;; Ok (Math_max zero n)).

(** The conversions of [normalizeStatsPatch], in its order. *)
Definition read_patch (patch : value) : result patch_content :=
  v <- get patch (js "name") ;;
  s <- cleanName v ;;
  v <- get patch (js "currentMiniGame") ;;
  game <- present v (fun v => ToString (or_else v (VStr []))) ;;
  v <- get patch (js "currentMiniGameIndex") ;;
  index <- present v (fun v => safeNum v zero) ;;
  totalMistakes <- read_counter patch (js "totalMistakes") ;;
  roundMistakes <- read_counter patch (js "roundMistakes") ;;
  completedRounds <- read_counter patch (js "completedRounds") ;;
  totalFound <- read_counter patch (js "totalFound") ;;
  lastRoundMs <- read_counter patch (js "lastRoundMs") ;;
  bestRoundMs <- read_counter patch (js "bestRoundMs") ;;
  Ok {| new_name := match s with [] => None | _ => Some s end;
        new_currentMiniGame := game;
        new_currentMiniGameIndex := index;
        new_totalMistakes := totalMistakes;
        new_roundMistakes := roundMistakes;
        new_completedRounds := completedRounds;
        new_totalFound := totalFound;
        new_lastRoundMs := lastRoundMs;
        new_bestRoundMs := bestRoundMs |}.

End ReadPatch.

(** The value of a field after a merge: the new one when there is one. *)
Definition merged {A : Type} (old new : option A) : option A :=
  match new with
  | Some x => Some x
  | None => old
  end.

Definition apply_patch (c : patch_content) (existing : participant)
    (now : jsstring) : participant :=
  {| id := id existing;
     name := merged (name existing) (new_name c);
     totalMistakes := merged (totalMistakes existing) (new_totalMistakes c);
     roundMistakes := merged (roundMistakes existing) (new_roundMistakes c);
     completedRounds := merged (completedRounds existing) (new_completedRounds c);
     totalFound := merged (totalFound existing) (new_totalFound c);
     lastRoundMs := merged (lastRoundMs existing) (new_lastRoundMs c);
     bestRoundMs := merged (bestRoundMs existing) (new_bestRoundMs c);
     currentMiniGame := merged (currentMiniGame existing) (new_currentMiniGame c);
     currentMiniGameIndex :=
       merged (currentMiniGameIndex existing) (new_currentMiniGameIndex c);
     updatedAt := VStr now |}.

(** ** The order of the scoreboard *)

(** [a] does not rank below [b] by the two counters the ranking looks at
    first: [a] has more completed rounds, or as many and no more mistakes. *)
Definition not_below (a b : participant) : Prop :=
  (counted (completedRounds b) < counted (completedRounds a))%Qc \/
  (counted (completedRounds a) = counted (completedRounds b) /\
   (counted (totalMistakes a) <= counted (totalMistakes b))%Qc).

(** What becomes of a body whose whole text is [text], by the limit, the end
    of the stream and the parse. *)
Definition settle (JSON_parse : jsstring -> option value)
    (text : jsstring) (fin : stream_end) : settled :=
  if (1000000 <? N.of_nat (List.length text))%N
  then Rejected payload_too_large
  else match fin with
       | errored => Rejected stream_error
       | ended =>
           match text with
           | [] => Resolved (VObj [])
           | _ => match JSON_parse text with
                  | Some v => Resolved v
                  | None => Rejected invalid_json
                  end
           end
       end.

(** ** What a reply tells *)

(** The ranked list a reply of status 200 carries. *)
Definition listed (r : reply) : option (list participant) :=
  match r with
  | Joined _ _ ranked | Updated _ ranked => Some ranked
  | Failed _ _ => None
  end.

(** The ranked list an answer carries: the scoreboard of a GET, or the list
    in the 200 of a join or an update. *)
Definition answered_list (a : answer) : option (list participant) :=
  match a with
  | Listed _ ranked => Some ranked
  | Answered r => listed r
  | Refused _ _ | NotFound => None
  end.

(** The two files [persistState] writes for a registry. *)
Definition data_written {B : Builtins} (st : state) (now : jsstring)
  : effect :=
  WriteData {| snapshot_updatedAt := now;
               snapshot_participants := ranked st |}.

Definition table_written {B : Builtins} (st : state) : effect :=
  WriteTable (ranked st).

(** The assignment [state.participants[k] = p] of a request: the new record
    of a join under the id it drew, or the patched record of an update under
    a name the registry answers to. *)
Definition assigned {B : Builtins} (st : state) (new_id now : jsstring)
    (k : jsstring) (p : participant) : Prop :=
  (k = new_id /\
   exists v nm, cleanName v = Ok nm /\ nm <> [] /\
                p = new_participant new_id nm now) \/
  (k <> [] /\ is_object (participants_get st k) = true /\
   exists patch,
     normalizeStatsPatch (spread (participants_get st k)) patch now = Ok p).

(** What a request did, from the registry [st] to [st']: nothing, or one
    assignment to the registry, followed by the write of the data file and,
    unless the table cannot be rendered, by the write of the table and the
    reply with the ranked list. *)
Definition effect_of_request {B : Builtins} (st st' : state)
    (new_id now now' : jsstring) (ok : option (list participant))
    (w : list effect) : Prop :=
  (st' = st /\ w = [] /\ ok = None) \/
  ((exists k p, assigned st new_id now k p /\
                participants_set st k p = Some st') /\
   ((ok = Some (ranked st') /\
     w = [data_written st' now'; table_written st']) \/
    (ok = None /\ w = [data_written st' now'] /\ ~ renderable st'))).


(** ** Well-formed rows *)

Definition finite_prop (o : option number) : Prop :=
  exists n : number, o = Some n /\ isFinite n = true.

(** A row as the program means to keep it under the name [k]: its id is
    [k], its name a text of 1 to 28 code units, its numbers finite. *)
Definition row_ok (k : jsstring) (p : participant) : Prop :=
  id p = Some k /\
  (exists nm, name p = Some nm /\ nm <> [] /\ (List.length nm <= 28)%nat) /\
  finite_prop (totalMistakes p) /\ finite_prop (roundMistakes p) /\
  finite_prop (completedRounds p) /\ finite_prop (totalFound p) /\
  finite_prop (lastRoundMs p) /\ finite_prop (bestRoundMs p) /\
  (exists s, currentMiniGame p = Some s) /\
  finite_prop (currentMiniGameIndex p).



(** A registry as [loadState] leaves it: every row well formed, under a name
    that is not empty. *)
Definition loaded (st : state) : Prop :=
  Forall (fun kp => fst kp <> [] /\ row_ok (fst kp) (snd kp))
         (participants st).

(** ** Sample requests *)

Module Wire.

Definition quoted (s : string) : jsstring := (34%N :: js s) ++ [34%N].

(** The text of the body of a join under the name Dana. *)
Definition join_text : jsstring :=
  js "{" ++ quoted "name" ++ js ":" ++ quoted "Dana" ++ js "}".

(** A stand-in for [JSON.parse] that reads the texts of the examples. *)
Definition parse (text : jsstring) : option value :=
  if str_eqb text join_text then Some (Sample.join_body "Dana")
  else if str_eqb text (js "{}") then Some (VObj [])
  else if str_eqb text (js "null") then Some VNull
  else None.

(** The join, its body arriving in two chunks. *)
Definition join_request : request :=
  {| method := POST;
     pathname := js "/group-api/join";
     chunks := [js "{" ++ quoted "name"; js ":" ++ quoted "Dana" ++ js "}"];
     stream := ended |}.

(** A body that is not JSON. *)
Definition broken_request : request :=
  {| method := POST;
     pathname := js "/group-api/update";
     chunks := [js "{"];
     stream := ended |}.

End Wire.

(* ================================================================== *)
(** * Properties *)
(* ================================================================== *)

(** ** Numbers *)

Lemma Qccompare_minus (x y : Qc) :
  ((x - y) ?= Q2Qc 0)%Qc = (x ?= y)%Qc.
Proof.
  destruct (x ?= y)%Qc eqn:E.
  - apply Qceq_alt in E. subst y. unfold Qcminus. rewrite Qcplus_opp_r.
    apply Qceq_alt. reflexivity.
  - apply Qclt_alt in E. apply Qclt_alt. apply Qclt_minus_iff.
    apply Qclt_minus_iff in E.
    replace (Q2Qc 0 + - (x - y))%Qc with (y + - x)%Qc by ring. exact E.
  - apply Qcgt_alt in E. apply Qcgt_alt. apply Qclt_minus_iff in E.
    replace (x - y)%Qc with (x + - y)%Qc by ring. exact E.
Qed.

Lemma Qccompare_antisym (x y : Qc) : (y ?= x)%Qc = CompOpp (x ?= y)%Qc.
Proof. unfold Qccompare. symmetry. apply Qcompare_antisym. Qed.

Lemma negative_Fin (q : Qc) :
  negative (Fin q) = true <-> (q < Q2Qc 0)%Qc.
Proof.
  simpl. rewrite Qclt_alt. destruct (q ?= Q2Qc 0)%Qc; split; congruence.
Qed.

Lemma positive_Fin (q : Qc) :
  positive (Fin q) = true <-> (Q2Qc 0 < q)%Qc.
Proof.
  simpl. rewrite Qclt_alt, (Qccompare_antisym q (Q2Qc 0)).
  destruct (q ?= Q2Qc 0)%Qc; simpl; split; congruence.
Qed.

(** ** The comparator *)

Section Comparator.
Context {B : Builtins}.

Lemma safeNum_num_prop (o : option number) :
  safeNum (num_prop o) zero = Ok (Fin (counted o)).
Proof. destruct o as [[q| | |]|]; reflexivity. Qed.

Lemma ToString_shown_name (p : participant) :
  ToString (or_else (str_prop (name p)) (VStr [])) = Ok (shown_name p).
Proof.
  unfold shown_name. destruct (name p) as [[|c s]|]; reflexivity.
Qed.

(** [scoreSort] returns on every pair of records, and [score] is what it
    returns. *)
Lemma scoreSort_score (a b : participant) : scoreSort a b = Ok (score a b).
Proof.
  unfold scoreSort, score.
  rewrite !safeNum_num_prop. cbn [bind sub is_zero].
  destruct (_ ?= _)%Qc; cbn [negb]; try reflexivity.
  destruct (_ ?= _)%Qc; cbn [negb]; try reflexivity.
  rewrite !ToString_shown_name. reflexivity.
Qed.

Lemma ranks_above_score (a b : participant) :
  ranks_above a b = negative (score a b).
Proof. unfold ranks_above. rewrite scoreSort_score. reflexivity. Qed.

Lemma score_by_rounds (a b : participant) :
  counted (completedRounds a) <> counted (completedRounds b) ->
  score a b = Fin (counted (completedRounds b) - counted (completedRounds a))%Qc.
Proof.
  intros Hne. unfold score. rewrite !Qccompare_minus.
  destruct (counted (completedRounds b) ?= counted (completedRounds a))%Qc
    eqn:E; try reflexivity.
  apply Qceq_alt in E. congruence.
Qed.

Lemma score_by_mistakes (a b : participant) :
  counted (completedRounds a) = counted (completedRounds b) ->
  counted (totalMistakes a) <> counted (totalMistakes b) ->
  score a b = Fin (counted (totalMistakes a) - counted (totalMistakes b))%Qc.
Proof.
  intros Heq Hne. unfold score. rewrite !Qccompare_minus, Heq.
  replace (counted (completedRounds b) ?= counted (completedRounds b))%Qc
    with Eq by (symmetry; apply Qceq_alt; reflexivity).
  destruct (counted (totalMistakes a) ?= counted (totalMistakes b))%Qc
    eqn:E; try reflexivity.
  apply Qceq_alt in E. congruence.
Qed.

Lemma score_by_name (a b : participant) :
  counted (completedRounds a) = counted (completedRounds b) ->
  counted (totalMistakes a) = counted (totalMistakes b) ->
  score a b = of_Z (localeCompare_he (shown_name a) (shown_name b)).
Proof.
  intros Hr Hm. unfold score. rewrite !Qccompare_minus, Hr, Hm.
  replace (counted (completedRounds b) ?= counted (completedRounds b))%Qc
    with Eq by (symmetry; apply Qceq_alt; reflexivity).
  replace (counted (totalMistakes b) ?= counted (totalMistakes b))%Qc
    with Eq by (symmetry; apply Qceq_alt; reflexivity).
  reflexivity.
Qed.

Lemma Qclt_neq (x y : Qc) : (x < y)%Qc -> x <> y.
Proof.
  intros Hlt Heq. subst y. exact (Qlt_irrefl _ Hlt).
Qed.

Lemma Qclt_minus_neg (x y : Qc) : (x < y)%Qc -> (x - y < Q2Qc 0)%Qc.
Proof.
  intros Hlt. apply Qclt_alt. rewrite Qccompare_minus. apply Qclt_alt. exact Hlt.
Qed.

Lemma Qclt_minus_not_neg (x y : Qc) : (x < y)%Qc -> ~ (y - x < Q2Qc 0)%Qc.
Proof.
  intros Hlt Hneg.
  assert (E : ((y - x) ?= Q2Qc 0)%Qc = Lt) by (apply Qclt_alt; exact Hneg).
  rewrite Qccompare_minus in E. apply Qclt_alt in E.
  exact (Qlt_irrefl _ (Qlt_trans _ _ _ Hlt E)).
Qed.

(** C1. For every pair of records [a] and [b] the comparator returns a number
    (it raises no error and the number is not NaN); it ranks [a] above [b]
    whenever [a] has more completed rounds, and, the completed rounds being
    equal, whenever [a] has fewer total mistakes; the two counters enter the
    comparison only through what they count as, a missing or non-finite one
    counting as 0. *)
Theorem scoreSort_rounds_then_mistakes (a b : participant) :
  exists x : number,
    scoreSort a b = Ok x /\ x <> NaN /\
    ((counted (completedRounds b) < counted (completedRounds a))%Qc ->
       ranks_above a b = true /\ ranks_above b a = false) /\
    (counted (completedRounds a) = counted (completedRounds b) ->
     (counted (totalMistakes a) < counted (totalMistakes b))%Qc ->
       ranks_above a b = true /\ ranks_above b a = false) /\
    (forall o : option number,
       (forall q : Qc, o <> Some (Fin q)) ->
       safeNum (num_prop o) zero = Ok zero /\ counted o = Q2Qc 0) /\
    (forall a' b' : participant,
       counted (completedRounds a') = counted (completedRounds a) ->
       counted (totalMistakes a') = counted (totalMistakes a) ->
       shown_name a' = shown_name a ->
       counted (completedRounds b') = counted (completedRounds b) ->
       counted (totalMistakes b') = counted (totalMistakes b) ->
       shown_name b' = shown_name b ->
       scoreSort a' b' = scoreSort a b).
Proof.
  exists (score a b). split; [apply scoreSort_score|]. split.
  { unfold score. destruct (_ ?= _)%Qc; try discriminate.
    destruct (_ ?= _)%Qc; discriminate. }
  split; [|split; [|split]].
  - intros Hlt. rewrite !ranks_above_score. split.
    + rewrite score_by_rounds by (apply not_eq_sym, Qclt_neq, Hlt).
      apply negative_Fin, Qclt_minus_neg, Hlt.
    + rewrite score_by_rounds by (apply Qclt_neq, Hlt).
      apply not_true_is_false. rewrite negative_Fin.
      apply Qclt_minus_not_neg, Hlt.
  - intros Heq Hlt. rewrite !ranks_above_score. split.
    + rewrite score_by_mistakes by (try apply Qclt_neq; assumption).
      apply negative_Fin, Qclt_minus_neg, Hlt.
    + rewrite score_by_mistakes
        by (try (apply not_eq_sym, Qclt_neq); auto).
      apply not_true_is_false. rewrite negative_Fin.
      apply Qclt_minus_not_neg, Hlt.
  - intros o Ho. destruct o as [[q| | |]|]; try (split; reflexivity).
    exfalso. apply (Ho q). reflexivity.
  - intros a' b' Hra Hma Hna Hrb Hmb Hnb.
    rewrite !scoreSort_score. f_equal. unfold score.
    rewrite Hra, Hma, Hna, Hrb, Hmb, Hnb. reflexivity.
Qed.

End Comparator.

(** ** Signs *)

Lemma negative_minus (x y : Qc) :
  negative (Fin (x - y)%Qc) = match (x ?= y)%Qc with Lt => true | _ => false end.
Proof. simpl. rewrite Qccompare_minus. reflexivity. Qed.

Lemma positive_minus (x y : Qc) :
  positive (Fin (x - y)%Qc) = match (x ?= y)%Qc with Gt => true | _ => false end.
Proof. simpl. rewrite Qccompare_minus. reflexivity. Qed.

Lemma Qccompare_inject_Z (z : Z) :
  (Q2Qc (inject_Z z) ?= Q2Qc 0)%Qc = (z ?= 0)%Z.
Proof.
  unfold Qccompare, Q2Qc. cbn [this].
  rewrite <- Qred_compare. unfold Qcompare. cbn [Qnum Qden inject_Z].
  rewrite Z.mul_1_r. reflexivity.
Qed.

Lemma negative_of_Z (z : Z) : negative (of_Z z) = (z <? 0)%Z.
Proof.
  unfold of_Z, negative. rewrite Qccompare_inject_Z. unfold Z.ltb. reflexivity.
Qed.

Lemma positive_of_Z (z : Z) : positive (of_Z z) = (0 <? z)%Z.
Proof.
  unfold of_Z, positive. rewrite Qccompare_inject_Z.
  rewrite Z.ltb_antisym, Z.leb_compare.
  destruct (z ?= 0)%Z; reflexivity.
Qed.

Lemma not_both_signs (n : number) : positive n = true -> negative n = false.
Proof.
  destruct n as [q| | |]; simpl; try congruence.
  destruct (q ?= Q2Qc 0)%Qc; congruence.
Qed.

(** ** The sort *)

Section SortFacts.
Context {A : Type}.

Lemma sort_insert_total (comparefn : A -> A -> result number)
    (cmp : A -> A -> number) :
  (forall a b, comparefn a b = Ok (cmp a b)) ->
  forall x l, sort_insert comparefn x l = Ok (insert_by cmp x l).
Proof.
  intros Hc x l. induction l as [|y rest IH]; simpl; [reflexivity|].
  rewrite Hc. simpl. destruct (positive (cmp x y)); [|reflexivity].
  rewrite IH. reflexivity.
Qed.

Lemma sort_total (comparefn : A -> A -> result number)
    (cmp : A -> A -> number) :
  (forall a b, comparefn a b = Ok (cmp a b)) ->
  forall l, sort comparefn l = Ok (sort_by cmp l).
Proof.
  intros Hc l. induction l as [|x rest IH]; simpl; [reflexivity|].
  rewrite IH. simpl. apply sort_insert_total, Hc.
Qed.

Variable cmp : A -> A -> number.

(** The comparator never finds both [x] behind [y] and [y] behind [x]. *)
Hypothesis cmp_total :
  forall x y, positive (cmp x y) = true -> positive (cmp y x) = false.

Lemma insert_by_HdRel (a x : A) (l : list A) :
  in_order cmp a x -> HdRel (in_order cmp) a l ->
  HdRel (in_order cmp) a (insert_by cmp x l).
Proof.
  intros Hax Hal. destruct l as [|y rest]; simpl.
  - constructor. exact Hax.
  - destruct (positive (cmp x y)).
    + constructor. inversion Hal; assumption.
    + constructor. exact Hax.
Qed.

Lemma insert_by_Sorted (x : A) (l : list A) :
  Sorted (in_order cmp) l -> Sorted (in_order cmp) (insert_by cmp x l).
Proof.
  induction 1 as [|y rest Hs IH Hhd]; simpl.
  - repeat constructor.
  - destruct (positive (cmp x y)) eqn:E.
    + constructor; [exact IH|].
      apply insert_by_HdRel; [|exact Hhd].
      unfold in_order. apply cmp_total, E.
    + constructor; [constructor; assumption|].
      constructor. exact E.
Qed.

Lemma sort_by_Sorted (l : list A) : Sorted (in_order cmp) (sort_by cmp l).
Proof.
  induction l as [|x rest IH]; simpl; [constructor|].
  apply insert_by_Sorted, IH.
Qed.

Lemma sort_by_of_Sorted (l : list A) :
  Sorted (in_order cmp) l -> sort_by cmp l = l.
Proof.
  induction 1 as [|x rest Hs IH Hhd]; simpl; [reflexivity|].
  rewrite IH. destruct Hhd as [|y rest' Hxy]; simpl; [reflexivity|].
  unfold in_order in Hxy. rewrite Hxy. reflexivity.
Qed.

Lemma sort_by_idempotent (l : list A) :
  sort_by cmp (sort_by cmp l) = sort_by cmp l.
Proof. apply sort_by_of_Sorted, sort_by_Sorted. Qed.

End SortFacts.

(** ** Ranking *)

Section Ranking.
Context {B : Builtins}.

Lemma participantsList_total (st : state) :
  participantsList st = Ok (sort_by score (map snd (participants st))).
Proof. apply sort_total, scoreSort_score. Qed.

(** The collation of the engine is taken to be antisymmetric. *)
Hypothesis localeCompare_antisym :
  forall s t : jsstring,
    Z.sgn (localeCompare_he t s) = (- Z.sgn (localeCompare_he s t))%Z.

Lemma score_flip (a b : participant) :
  positive (score b a) = negative (score a b).
Proof.
  unfold score. rewrite !Qccompare_minus.
  rewrite (Qccompare_antisym (counted (completedRounds b))
                             (counted (completedRounds a))).
  rewrite (Qccompare_antisym (counted (totalMistakes a))
                             (counted (totalMistakes b))).
  destruct (counted (completedRounds b) ?= counted (completedRounds a))%Qc
    eqn:Er; cbn [CompOpp].
  - destruct (counted (totalMistakes a) ?= counted (totalMistakes b))%Qc
      eqn:Em; cbn [CompOpp].
    + rewrite positive_of_Z, negative_of_Z.
      specialize (localeCompare_antisym (shown_name a) (shown_name b)).
      destruct (localeCompare_he (shown_name a) (shown_name b));
        destruct (localeCompare_he (shown_name b) (shown_name a));
        simpl in *; try reflexivity; discriminate.
    + rewrite positive_minus, negative_minus, Em.
      rewrite (Qccompare_antisym (counted (totalMistakes a))), Em. reflexivity.
    + rewrite positive_minus, negative_minus, Em.
      rewrite (Qccompare_antisym (counted (totalMistakes a))), Em. reflexivity.
  - rewrite positive_minus, negative_minus, Er.
    rewrite (Qccompare_antisym (counted (completedRounds b))), Er. reflexivity.
  - rewrite positive_minus, negative_minus, Er.
    rewrite (Qccompare_antisym (counted (completedRounds b))), Er. reflexivity.
Qed.

Lemma score_total (x y : participant) :
  positive (score x y) = true -> positive (score y x) = false.
Proof.
  intros H. rewrite (score_flip x y). apply not_both_signs, H.
Qed.

End Ranking.

(** When [a] ranks above [b], key by key. *)
Lemma ranks_above_iff {B : Builtins} (a b : participant) :
  ranks_above a b = true <->
  (counted (completedRounds b) < counted (completedRounds a))%Qc \/
  (counted (completedRounds a) = counted (completedRounds b) /\
   ((counted (totalMistakes a) < counted (totalMistakes b))%Qc \/
    (counted (totalMistakes a) = counted (totalMistakes b) /\
     (localeCompare_he (shown_name a) (shown_name b) < 0)%Z))).
Proof.
  rewrite ranks_above_score. unfold score. rewrite !Qccompare_minus.
  destruct (counted (completedRounds b) ?= counted (completedRounds a))%Qc
    eqn:Er.
  - apply Qceq_alt in Er.
    destruct (counted (totalMistakes a) ?= counted (totalMistakes b))%Qc
      eqn:Em.
    + apply Qceq_alt in Em. rewrite negative_of_Z, Z.ltb_lt. split.
      * intros H. right. split; [congruence|]. right. split; assumption.
      * intros [H|[_ [H|[_ H]]]]; [| |exact H]; exfalso.
        -- rewrite Er in H. exact (Qlt_irrefl _ H).
        -- rewrite Em in H. exact (Qlt_irrefl _ H).
    + rewrite negative_minus, Em. apply Qclt_alt in Em. split; [|reflexivity].
      intros _. right. split; [congruence|]. left. exact Em.
    + rewrite negative_minus, Em. apply Qcgt_alt in Em.
      split; [discriminate|].
      intros [H|[_ [H|[H _]]]]; exfalso.
      * rewrite Er in H. exact (Qlt_irrefl _ H).
      * exact (Qlt_irrefl _ (Qlt_trans _ _ _ H Em)).
      * rewrite H in Em. exact (Qlt_irrefl _ Em).
  - rewrite negative_minus, Er. apply Qclt_alt in Er. split; [|reflexivity].
    intros _. left. exact Er.
  - rewrite negative_minus, Er. apply Qcgt_alt in Er.
    split; [discriminate|].
    intros [H|[H _]]; exfalso.
    + exact (Qlt_irrefl _ (Qlt_trans _ _ _ H Er)).
    + rewrite H in Er. exact (Qlt_irrefl _ Er).
Qed.

(** A collation that is antisymmetric in sign and whose [<= 0] is transitive
    orders the texts: its [< 0] and its [= 0] are transitive. *)
Section Collation.
Variable compare : jsstring -> jsstring -> Z.
Hypothesis compare_antisym :
  forall s t : jsstring, Z.sgn (compare t s) = (- Z.sgn (compare s t))%Z.
Hypothesis compare_trans :
  forall s t u : jsstring,
    (compare s t <= 0)%Z -> (compare t u <= 0)%Z -> (compare s u <= 0)%Z.

Lemma compare_flip_le (s t : jsstring) :
  (compare s t <= 0)%Z <-> (0 <= compare t s)%Z.
Proof.
  pose proof (compare_antisym s t) as H.
  destruct (compare s t), (compare t s); simpl in H; lia.
Qed.

Lemma compare_before_trans (s t u : jsstring) :
  (compare s t < 0)%Z -> (compare t u < 0)%Z -> (compare s u < 0)%Z.
Proof.
  intros Hst Htu.
  assert (Hsu : (compare s u <= 0)%Z) by (apply (compare_trans s t u); lia).
  destruct (Z.eq_dec (compare s u) 0) as [Hz|Hz]; [|lia].
  assert (Hus : (compare u s <= 0)%Z)
    by (apply compare_flip_le; lia).
  assert (Hut : (compare u t <= 0)%Z)
    by (apply (compare_trans u s t); lia).
  apply compare_flip_le in Hut. lia.
Qed.

Lemma compare_tie_trans (s t u : jsstring) :
  compare s t = 0%Z -> compare t u = 0%Z -> compare s u = 0%Z.
Proof.
  intros Hst Htu.
  assert (Hsu : (compare s u <= 0)%Z) by (apply (compare_trans s t u); lia).
  assert (Hts : (compare t s <= 0)%Z) by (apply compare_flip_le; lia).
  assert (Hut : (compare u t <= 0)%Z) by (apply compare_flip_le; lia).
  assert (Hus : (compare u s <= 0)%Z)
    by (apply (compare_trans u t s); assumption).
  apply compare_flip_le in Hus. lia.
Qed.

End Collation.

Lemma codeunit_compare_antisym (s t : jsstring) :
  Z.sgn (Sample.codeunit_compare t s) = (- Z.sgn (Sample.codeunit_compare s t))%Z.
Proof.
  revert t. induction s as [|c s IH]; intros [|d t]; simpl; try reflexivity.
  rewrite (N.compare_antisym c d).
  destruct (c ?= d)%N; simpl; try reflexivity. apply IH.
Qed.

Lemma codeunit_compare_trans (s t u : jsstring) :
  (Sample.codeunit_compare s t <= 0)%Z ->
  (Sample.codeunit_compare t u <= 0)%Z ->
  (Sample.codeunit_compare s u <= 0)%Z.
Proof.
  revert t u. induction s as [|c s IH]; intros [|d t] [|e u]; simpl;
    try lia.
  destruct (N.compare_spec c d), (N.compare_spec d e), (N.compare_spec c e);
    subst; try lia.
  apply IH.
Qed.

(** C3, the counterexample.  Two records with distinct ids, the same name and
    the same counters: under no collation does exactly one of them rank above
    the other, since the comparator sees the same pair of keys both ways. *)
Lemma same_name_rows_are_not_ordered :
  id Sample.dana1 <> id Sample.dana2 /\
  ~ (exists B : Builtins,
       (@ranks_above B Sample.dana1 Sample.dana2 = true /\
        @ranks_above B Sample.dana2 Sample.dana1 = false) \/
       (@ranks_above B Sample.dana2 Sample.dana1 = true /\
        @ranks_above B Sample.dana1 Sample.dana2 = false)).
Proof.
  split; [discriminate|].
  assert (E : forall B : Builtins,
             @ranks_above B Sample.dana1 Sample.dana2
             = @ranks_above B Sample.dana2 Sample.dana1).
  { intros B. rewrite !ranks_above_score.
    rewrite !score_by_name by reflexivity. reflexivity. }
  intros [B [[H1 H2]|[H1 H2]]]; rewrite (E B) in *; congruence.
Qed.

(** C3, as amended.  Under a collation that is antisymmetric in sign the
    comparator is irreflexive and asymmetric: of two records at most one
    ranks above the other, and neither does exactly when they tie on the
    completed rounds, on the total mistakes (a missing or non-finite counter
    counting as 0) and in the collation of their names, whatever their ids;
    the sort returns on every list, and sorting its output again returns
    that output.  When the collation is transitive as well, ranking above is
    transitive and so is tying: the comparator is a strict weak order, whose
    ties are the records of one key. *)
Theorem ranking_is_a_strict_weak_order (B : Builtins)
    (localeCompare_antisym :
       forall s t : jsstring,
         Z.sgn (localeCompare_he t s) = (- Z.sgn (localeCompare_he s t))%Z) :
  (forall a : participant, ranks_above a a = false) /\
  (forall a b : participant, ranks_above a b = true -> ranks_above b a = false) /\
  (forall a b : participant,
     (ranks_above a b = false /\ ranks_above b a = false) <->
     (counted (completedRounds a) = counted (completedRounds b) /\
      counted (totalMistakes a) = counted (totalMistakes b) /\
      localeCompare_he (shown_name a) (shown_name b) = 0%Z)) /\
  (forall l : list participant,
     exists sorted : list participant,
       sort scoreSort l = Ok sorted /\ sort scoreSort sorted = Ok sorted) /\
  ((forall s t u : jsstring,
      (localeCompare_he s t <= 0)%Z -> (localeCompare_he t u <= 0)%Z ->
      (localeCompare_he s u <= 0)%Z) ->
   (forall a b c : participant,
      ranks_above a b = true -> ranks_above b c = true ->
      ranks_above a c = true) /\
   (forall a b c : participant,
      ranks_above a b = false /\ ranks_above b a = false ->
      ranks_above b c = false /\ ranks_above c b = false ->
      ranks_above a c = false /\ ranks_above c a = false)).
Proof.
  assert (Hasym : forall a b : participant,
            ranks_above a b = true -> ranks_above b a = false).
  { intros a b. rewrite !ranks_above_score.
    rewrite <- (score_flip localeCompare_antisym a b).
    apply not_both_signs. }
  assert (Hties : forall a b : participant,
     (ranks_above a b = false /\ ranks_above b a = false) <->
     (counted (completedRounds a) = counted (completedRounds b) /\
      counted (totalMistakes a) = counted (totalMistakes b) /\
      localeCompare_he (shown_name a) (shown_name b) = 0%Z)).
  { intros a b. rewrite !ranks_above_score.
    rewrite <- (score_flip localeCompare_antisym b a).
    unfold score. rewrite !Qccompare_minus.
    destruct (counted (completedRounds b) ?= counted (completedRounds a))%Qc
      eqn:Er.
    + apply Qceq_alt in Er.
      destruct (counted (totalMistakes a) ?= counted (totalMistakes b))%Qc
        eqn:Em.
      * apply Qceq_alt in Em. rewrite negative_of_Z, positive_of_Z.
        split.
        -- intros [Hn Hp]. repeat split; auto.
           apply Z.ltb_ge in Hn. apply Z.ltb_ge in Hp. lia.
        -- intros (_ & _ & Hz). rewrite Hz. split; reflexivity.
      * rewrite negative_minus, Em. split; [intros [Hn _]; discriminate|].
        intros (_ & Hm & _). rewrite Hm in Em.
        assert (E : (counted (totalMistakes b) ?= counted (totalMistakes b))%Qc = Eq)
          by (apply Qceq_alt; reflexivity).
        congruence.
      * rewrite positive_minus, Em. split; [intros [_ Hp]; discriminate|].
        intros (_ & Hm & _). rewrite Hm in Em.
        assert (E : (counted (totalMistakes b) ?= counted (totalMistakes b))%Qc = Eq)
          by (apply Qceq_alt; reflexivity).
        congruence.
    + rewrite negative_minus, Er. split; [intros [Hn _]; discriminate|].
      intros (Hr & _). rewrite Hr in Er.
      assert (E : (counted (completedRounds b) ?= counted (completedRounds b))%Qc = Eq)
        by (apply Qceq_alt; reflexivity).
      congruence.
    + rewrite positive_minus, Er. split; [intros [_ Hp]; discriminate|].
      intros (Hr & _). rewrite Hr in Er.
      assert (E : (counted (completedRounds b) ?= counted (completedRounds b))%Qc = Eq)
        by (apply Qceq_alt; reflexivity).
      congruence. }
  split; [|split; [exact Hasym|split; [exact Hties|split]]].
  - intros a. destruct (ranks_above a a) eqn:E; [|reflexivity].
    rewrite <- E. exact (Hasym a a E).
  - intros l. exists (sort_by score l).
    rewrite !(sort_total scoreSort score scoreSort_score).
    split; [reflexivity|]. f_equal.
    apply sort_by_idempotent. apply (score_total localeCompare_antisym).
  - intros localeCompare_trans. split.
    + intros a b c Hab Hbc. apply ranks_above_iff.
      apply ranks_above_iff in Hab. apply ranks_above_iff in Hbc.
      destruct Hab as [Hab|[Hab Hab']].
      * left. destruct Hbc as [Hbc|[Hbc _]].
        -- eapply Qclt_trans; eassumption.
        -- rewrite <- Hbc. exact Hab.
      * destruct Hbc as [Hbc|[Hbc Hbc']].
        -- left. rewrite Hab. exact Hbc.
        -- right. split; [congruence|].
           destruct Hab' as [Hm|[Hm Hn]], Hbc' as [Hm'|[Hm' Hn']].
           ++ left. eapply Qclt_trans; eassumption.
           ++ left. rewrite <- Hm'. exact Hm.
           ++ left. rewrite Hm. exact Hm'.
           ++ right. split; [congruence|].
              exact (compare_before_trans localeCompare_he
                       localeCompare_antisym localeCompare_trans _ _ _ Hn Hn').
    + intros a b c Hab Hbc. apply Hties.
      apply Hties in Hab. apply Hties in Hbc.
      destruct Hab as (Hr & Hm & Hn), Hbc as (Hr' & Hm' & Hn').
      split; [congruence|]. split; [congruence|].
      exact (compare_tie_trans localeCompare_he
               localeCompare_antisym localeCompare_trans _ _ _ Hn Hn').
Qed.

(** The amended C3 at the sample engine, whose collation by code units is
    antisymmetric and transitive. *)
Lemma ranking_is_a_strict_weak_order_witness :
  (forall s t : jsstring,
     Z.sgn (Sample.codeunit_compare t s)
     = (- Z.sgn (Sample.codeunit_compare s t))%Z) /\
  (forall s t u : jsstring,
     (Sample.codeunit_compare s t <= 0)%Z ->
     (Sample.codeunit_compare t u <= 0)%Z ->
     (Sample.codeunit_compare s u <= 0)%Z) /\
  @ranks_above Sample.engine Sample.rowB Sample.rowA = true /\
  @ranks_above Sample.engine Sample.rowA Sample.rowB = false /\
  (forall c : participant,
     @ranks_above Sample.engine Sample.rowA c = true ->
     @ranks_above Sample.engine Sample.rowB c = true) /\
  (exists sorted : list participant,
     @sort participant (@scoreSort Sample.engine) [Sample.rowA; Sample.rowB]
       = Ok sorted /\
     @sort participant (@scoreSort Sample.engine) sorted = Ok sorted).
Proof.
  split; [exact codeunit_compare_antisym|].
  split; [exact codeunit_compare_trans|].
  pose proof (ranking_is_a_strict_weak_order Sample.engine
                codeunit_compare_antisym)
    as (_ & Hasym & _ & Hsort & Hweak).
  destruct (Hweak codeunit_compare_trans) as [Htrans _].
  assert (Hba : @ranks_above Sample.engine Sample.rowB Sample.rowA = true)
    by (vm_compute; reflexivity).
  split; [exact Hba|]. split; [exact (Hasym _ _ Hba)|].
  split; [intros c; exact (Htrans _ _ c Hba)|].
  exact (Hsort [Sample.rowA; Sample.rowB]).
Defined.

(** ** Patches *)

Lemma bind_Ok {A C : Type} (r : result A) (k : A -> result C) (c : C) :
  bind r k = Ok c -> exists a : A, r = Ok a /\ k a = Ok c.
Proof. destruct r as [a|e]; simpl; [eauto | discriminate]. Qed.

Ltac bind_inv H :=
  let a := fresh "x" in
  let E := fresh "E" in
  apply bind_Ok in H; destruct H as (a & E & H).

Section Patches.
Context {B : Builtins}.

Lemma cleanName_undefined : cleanName VUndefined = Ok [].
Proof. reflexivity. Qed.

Lemma safeNum_finite (v : value) (n : number) :
  safeNum v zero = Ok n -> isFinite n = true.
Proof.
  unfold safeNum. intros H. bind_inv H. injection H as <-.
  destruct (isFinite x) eqn:Hfin; [exact Hfin | reflexivity].
Qed.

(** A step [if (patch.f !== undefined) next.f = ...] either leaves [next] as
    it is, the patch not carrying [f], or assigns [f]. *)
Lemma patch_counter_inv (patch : value) (f : jsstring)
    (assign : number -> participant -> participant) (next n : participant) :
  patch_counter patch f assign next = Ok n ->
  (absent patch f /\ n = next) \/
  (~ absent patch f /\
   exists x : number, isFinite x = true /\ n = assign (Math_max zero x) next).
Proof.
  unfold patch_counter, absent. intros H. bind_inv H. rewrite E.
  destruct x; try (left; split; congruence);
    right; (split; [congruence|]); bind_inv H; injection H as <-;
    eexists; (split; [eapply safeNum_finite; eassumption | reflexivity]).
Qed.

Lemma text_step_inv (patch : value) (f : jsstring) (v : value)
    (assign : jsstring -> participant -> participant) (next n : participant) :
  get patch f = Ok v ->
  match v with
  | VUndefined => Ok next
  | _ => s <- ToString (or_else v (VStr [])) ;; Ok (assign s next)
  end = Ok n ->
  (absent patch f /\ n = next) \/
  (~ absent patch f /\ exists s : jsstring, n = assign s next).
Proof.
  unfold absent. intros E H. rewrite E.
  destruct v; try (left; split; congruence);
    right; (split; [congruence|]); bind_inv H; injection H as <-;
    eexists; reflexivity.
Qed.

Lemma index_step_inv (patch : value) (f : jsstring) (v : value)
    (assign : number -> participant -> participant) (next n : participant) :
  get patch f = Ok v ->
  match v with
  | VUndefined => Ok next
  | _ => x <- safeNum v zero ;; Ok (assign x next)
  end = Ok n ->
  (absent patch f /\ n = next) \/
  (~ absent patch f /\ exists x : number, n = assign x next).
Proof.
  unfold absent. intros E H. rewrite E.
  destruct v; try (left; split; congruence);
    right; (split; [congruence|]); bind_inv H; injection H as <-;
    eexists; reflexivity.
Qed.

Lemma name_step_inv (patch v : value) (s : jsstring) (next : participant) :
  get patch (js "name") = Ok v -> cleanName v = Ok s ->
  (match s with [] => next | _ => set_name s next end = next) \/
  (~ absent patch (js "name") /\
   match s with [] => next | _ => set_name s next end = set_name s next).
Proof.
  unfold absent. intros E H. destruct s as [|c s]; [left; reflexivity|].
  right. split; [|reflexivity]. rewrite E. intros Hv.
  injection Hv as ->. rewrite cleanName_undefined in H. discriminate.
Qed.

(** The steps of [normalizeStatsPatch], one after the other. *)
Lemma normalizeStatsPatch_steps (existing : participant) (patch : value)
    (now : jsstring) (next : participant) :
  normalizeStatsPatch existing patch now = Ok next ->
  exists n0 n1 n2 n3 n4 n5 n6 n7 n8 : participant,
    (n0 = existing \/
     ~ absent patch (js "name") /\ exists s, n0 = set_name s existing) /\
    (absent patch (js "currentMiniGame") /\ n1 = n0 \/
     ~ absent patch (js "currentMiniGame") /\
     exists s, n1 = set_currentMiniGame s n0) /\
    (absent patch (js "currentMiniGameIndex") /\ n2 = n1 \/
     ~ absent patch (js "currentMiniGameIndex") /\
     exists x, n2 = set_currentMiniGameIndex x n1) /\
    (absent patch (js "totalMistakes") /\ n3 = n2 \/
     ~ absent patch (js "totalMistakes") /\
     exists x, isFinite x = true /\
       n3 = set_totalMistakes (Math_max zero x) n2) /\
    (absent patch (js "roundMistakes") /\ n4 = n3 \/
     ~ absent patch (js "roundMistakes") /\
     exists x, isFinite x = true /\
       n4 = set_roundMistakes (Math_max zero x) n3) /\
    (absent patch (js "completedRounds") /\ n5 = n4 \/
     ~ absent patch (js "completedRounds") /\
     exists x, isFinite x = true /\
       n5 = set_completedRounds (Math_max zero x) n4) /\
    (absent patch (js "totalFound") /\ n6 = n5 \/
     ~ absent patch (js "totalFound") /\
     exists x, isFinite x = true /\
       n6 = set_totalFound (Math_max zero x) n5) /\
    (absent patch (js "lastRoundMs") /\ n7 = n6 \/
     ~ absent patch (js "lastRoundMs") /\
     exists x, isFinite x = true /\
       n7 = set_lastRoundMs (Math_max zero x) n6) /\
    (absent patch (js "bestRoundMs") /\ n8 = n7 \/
     ~ absent patch (js "bestRoundMs") /\
     exists x, isFinite x = true /\
       n8 = set_bestRoundMs (Math_max zero x) n7) /\
    next = set_updatedAt (VStr now) n8.
Proof.
  unfold normalizeStatsPatch. intros H.
  bind_inv H. bind_inv H. cbv zeta in H.
  bind_inv H. bind_inv H. bind_inv H. bind_inv H.
  bind_inv H. bind_inv H. bind_inv H. bind_inv H. bind_inv H. bind_inv H.
  injection H as <-.
  match goal with
  | Hn : cleanName _ = Ok ?s |- _ =>
      exists (match s with [] => existing | _ => set_name s existing end)
  end.
  do 8 eexists.
  repeat match goal with
  | |- _ /\ _ => split
  end;
  try (eapply patch_counter_inv; eassumption);
  try reflexivity.
  - destruct (name_step_inv patch _ _ existing E E0) as [H|[Hn H]];
      [left; exact H | right; split; [exact Hn | eexists; exact H] ].
  - eapply text_step_inv; eassumption.
  - eapply index_step_inv; eassumption.
Qed.

End Patches.

(** Chains the steps for the field read by [proj]: a step that assigns
    another field keeps it, and the step of the field itself keeps it when the
    patch does not carry the field. *)
Ltac keep_through proj :=
  repeat match goal with
  | D : (_ /\ ?n' = ?n) \/ _ |- _ =>
      assert (proj n' = proj n)
        by (first [ destruct D as [[? ->]|[? [? [? ->]]]]
                  | destruct D as [[? ->]|[? [? ->]]] ];
            [reflexivity | first [reflexivity | contradiction]]);
      clear D
  | D : ?n' = ?n \/ _ |- _ =>
      assert (proj n' = proj n)
        by (destruct D as [->|[? [? ->]]];
            [reflexivity | first [reflexivity | contradiction]]);
      clear D
  end;
  simpl; congruence.

(** C2. A successful [normalizeStatsPatch] sets [updatedAt] to the current
    time, never touches [id], and leaves every other field that the patch does
    not carry exactly as it was; the empty patch succeeds and changes nothing
    but [updatedAt]. *)
Theorem normalizeStatsPatch_changes_only_patched_fields (B : Builtins)
    (existing : participant) (patch : value) (now : jsstring)
    (next : participant) :
  normalizeStatsPatch existing patch now = Ok next ->
  updatedAt next = VStr now /\
  id next = id existing /\
  (absent patch (js "name") -> name next = name existing) /\
  (absent patch (js "currentMiniGame") ->
     currentMiniGame next = currentMiniGame existing) /\
  (absent patch (js "currentMiniGameIndex") ->
     currentMiniGameIndex next = currentMiniGameIndex existing) /\
  (absent patch (js "totalMistakes") ->
     totalMistakes next = totalMistakes existing) /\
  (absent patch (js "roundMistakes") ->
     roundMistakes next = roundMistakes existing) /\
  (absent patch (js "completedRounds") ->
     completedRounds next = completedRounds existing) /\
  (absent patch (js "totalFound") -> totalFound next = totalFound existing) /\
  (absent patch (js "lastRoundMs") -> lastRoundMs next = lastRoundMs existing) /\
  (absent patch (js "bestRoundMs") -> bestRoundMs next = bestRoundMs existing) /\
  normalizeStatsPatch existing (VObj []) now
    = Ok (set_updatedAt (VStr now) existing).
Proof.
  intros H. apply normalizeStatsPatch_steps in H.
  destruct H as (n0 & n1 & n2 & n3 & n4 & n5 & n6 & n7 & n8 &
                 D0 & D1 & D2 & D3 & D4 & D5 & D6 & D7 & D8 & ->).
  split; [reflexivity|].
  split; [keep_through id|].
  split; [intros Habs; keep_through name|].
  split; [intros Habs; keep_through currentMiniGame|].
  split; [intros Habs; keep_through currentMiniGameIndex|].
  split; [intros Habs; keep_through totalMistakes|].
  split; [intros Habs; keep_through roundMistakes|].
  split; [intros Habs; keep_through completedRounds|].
  split; [intros Habs; keep_through totalFound|].
  split; [intros Habs; keep_through lastRoundMs|].
  split; [intros Habs; keep_through bestRoundMs|].
  reflexivity.
Qed.

(** Scenario B of the specification: the patch [{completedRounds: 3}] on a
    record with 2 completed rounds and 5 total mistakes. *)
Lemma normalizeStatsPatch_changes_only_patched_fields_witness :
  let existing := Sample.row "p1" "Dana" 2 5 in
  let patch := VObj [(js "completedRounds", VNum (of_Z 3))] in
  let next := set_updatedAt (VStr Sample.t2) (Sample.row "p1" "Dana" 3 5) in
  @normalizeStatsPatch Sample.engine existing patch Sample.t2 = Ok next /\
  completedRounds next = Some (of_Z 3) /\
  totalMistakes next = totalMistakes existing /\
  name next = name existing /\
  updatedAt next = VStr Sample.t2.
Proof.
  intros existing patch next.
  assert (H : @normalizeStatsPatch Sample.engine existing patch Sample.t2
              = Ok next) by reflexivity.
  split; [exact H|]. split; [reflexivity|].
  destruct (normalizeStatsPatch_changes_only_patched_fields
              Sample.engine existing patch Sample.t2 next H)
    as (Hu & _ & Hn & _ & _ & Hm & _).
  split; [apply Hm; reflexivity|].
  split; [apply Hn; reflexivity|]. exact Hu.
Defined.

(** ** The registry *)

Lemma own_record_replace_own_same (k : jsstring) (p : participant)
    (l : list (jsstring * participant)) :
  own_record k l <> None -> own_record k (replace_own k p l) = Some p.
Proof.
  induction l as [|[k' p'] rest IH]; simpl; [congruence|].
  destruct (str_eq_dec k k') as [->|Hne]; simpl.
  - destruct (str_eq_dec k' k'); congruence.
  - destruct (str_eq_dec k k'); [congruence|]. exact IH.
Qed.

Lemma own_record_replace_own_other (k k0 : jsstring) (p : participant)
    (l : list (jsstring * participant)) :
  k0 <> k -> own_record k0 (replace_own k p l) = own_record k0 l.
Proof.
  intros Hne. induction l as [|[k' p'] rest IH]; simpl; [reflexivity|].
  destruct (str_eq_dec k k') as [->|Hk]; simpl.
  - destruct (str_eq_dec k0 k'); [congruence | reflexivity].
  - destruct (str_eq_dec k0 k'); [reflexivity | exact IH].
Qed.

Lemma own_record_create_own_same (k : jsstring) (p : participant)
    (l : list (jsstring * participant)) :
  own_record k l = None -> own_record k (create_own k p l) = Some p.
Proof.
  induction l as [|[k' p'] rest IH]; simpl.
  - destruct (str_eq_dec k k); congruence.
  - destruct (str_eq_dec k k') as [->|Hne]; [discriminate|]. intros Hnone.
    destruct (created_before k k'); simpl.
    + destruct (str_eq_dec k k); congruence.
    + destruct (str_eq_dec k k'); [congruence|]. apply IH, Hnone.
Qed.

Lemma own_record_create_own_other (k k0 : jsstring) (p : participant)
    (l : list (jsstring * participant)) :
  k0 <> k -> own_record k0 (create_own k p l) = own_record k0 l.
Proof.
  intros Hne. induction l as [|[k' p'] rest IH]; simpl.
  - destruct (str_eq_dec k0 k); congruence.
  - destruct (created_before k k'); simpl.
    + destruct (str_eq_dec k0 k); [congruence | reflexivity].
    + destruct (str_eq_dec k0 k'); [reflexivity | exact IH].
Qed.

Lemma length_replace_own (k : jsstring) (p : participant)
    (l : list (jsstring * participant)) :
  List.length (replace_own k p l) = List.length l.
Proof.
  induction l as [|[k' p'] rest IH]; simpl; [reflexivity|].
  destruct (str_eq_dec k k'); simpl; congruence.
Qed.

Lemma length_create_own (k : jsstring) (p : participant)
    (l : list (jsstring * participant)) :
  List.length (create_own k p l) = S (List.length l).
Proof.
  induction l as [|[k' p'] rest IH]; simpl; [reflexivity|].
  destruct (created_before k k'); simpl; congruence.
Qed.

(** Writing an own property: it is then read back, every other name reads as
    before and the registry keeps its size. *)
Lemma participants_set_own (st : state) (k : jsstring) (p0 p : participant) :
  participants_get st k = Own p0 ->
  exists st' : state,
    participants_set st k p = Some st' /\
    participants st' = replace_own k p (participants st) /\
    participants_get st' k = Own p /\
    (forall k0, k0 <> k -> participants_get st' k0 = participants_get st k0) /\
    List.length (participants st') = List.length (participants st).
Proof.
  unfold participants_get, participants_set. intros H.
  destruct (own_record k (participants st)) as [q|] eqn:E.
  - eexists. split; [reflexivity|]. cbn [participants].
    split; [reflexivity|]. split; [|split].
    + rewrite own_record_replace_own_same by congruence. reflexivity.
    + intros k0 Hne. rewrite own_record_replace_own_other by exact Hne.
      reflexivity.
    + apply length_replace_own.
  - destruct (existsb _ _); discriminate.
Qed.


(** ** Requests *)

Section Requests.
Context {B : Builtins}.

Lemma render_rows_total (rows : list participant) :
  Forall renders rows -> render_rows rows = Ok tt.
Proof.
  induction 1 as [|row rest Hrow _ IH]; simpl; [reflexivity|].
  unfold renders in Hrow. rewrite Hrow. exact IH.
Qed.

Lemma Forall_insert_by {A : Type} (P : A -> Prop) (cmp : A -> A -> number)
    (x : A) (l : list A) :
  P x -> Forall P l -> Forall P (insert_by cmp x l).
Proof.
  intros Hx. induction 1 as [|y rest Hy Hrest IH]; simpl.
  - repeat constructor. exact Hx.
  - destruct (positive (cmp x y)); repeat constructor; assumption.
Qed.

Lemma Forall_sort_by {A : Type} (P : A -> Prop) (cmp : A -> A -> number)
    (l : list A) :
  Forall P l -> Forall P (sort_by cmp l).
Proof.
  induction 1 as [|x rest Hx Hrest IH]; simpl; [constructor|].
  apply Forall_insert_by; assumption.
Qed.

Lemma buildScoreboardHtml_total (st : state) :
  renderable st -> buildScoreboardHtml st = Ok (ranked st).
Proof.
  intros Hst. unfold buildScoreboardHtml.
  rewrite participantsList_total. cbn [bind].
  rewrite render_rows_total by (apply Forall_sort_by, Hst). reflexivity.
Qed.

Lemma persistState_total (st : state) (now : jsstring) :
  renderable st ->
  persistState st now =
  ([ WriteData {| snapshot_updatedAt := now;
                  snapshot_participants := ranked st |};
     WriteTable (ranked st) ], Ok tt).
Proof.
  intros Hst. unfold persistState.
  rewrite participantsList_total, buildScoreboardHtml_total by exact Hst.
  reflexivity.
Qed.

Lemma persist_and_reply_total (st : state) (now : jsstring)
    (answer : list participant -> reply) :
  renderable st ->
  persist_and_reply st now answer =
  Some (st, answer (ranked st),
        [ WriteData {| snapshot_updatedAt := now;
                       snapshot_participants := ranked st |};
          WriteTable (ranked st) ]).
Proof.
  intros Hst. unfold persist_and_reply.
  rewrite persistState_total by exact Hst.
  rewrite participantsList_total. reflexivity.
Qed.

Lemma renders_text (p : participant) (now : jsstring) :
  updatedAt p = VStr now -> renders p.
Proof.
  unfold renders. intros ->. destruct now; reflexivity.
Qed.

Lemma Forall_replace_own (P : participant -> Prop) (k : jsstring)
    (p : participant) (l : list (jsstring * participant)) :
  P p -> Forall P (map snd l) -> Forall P (map snd (replace_own k p l)).
Proof.
  intros Hp. induction l as [|[k' p'] rest IH]; simpl; intros Hl;
    [constructor|].
  inversion Hl; subst.
  destruct (str_eq_dec k k'); simpl; constructor; auto.
Qed.


Lemma cleanName_text (s : jsstring) :
  cleanName (VStr s) = Ok (slice0 28 (trim s)).
Proof. destruct s; reflexivity. Qed.

End Requests.

(** C7. A join whose name cleans to the empty text, as every text that trims
    to nothing does, is answered [400 name_required]; the registry is left as
    it was and nothing is written. *)
Theorem join_without_a_name_is_rejected (B : Builtins) (st : state)
    (body v : value) (new_id now now' : jsstring) :
  get body (js "name") = Ok v ->
  cleanName v = Ok [] ->
  join st body new_id now now' = Some (st, Failed 400 name_required, []) /\
  (forall s : jsstring, trim s = [] -> cleanName (VStr s) = Ok []).
Proof.
  intros Hget Hclean. split.
  - unfold join. rewrite Hget. cbn [bind]. rewrite Hclean. reflexivity.
  - intros s Htrim. rewrite cleanName_text, Htrim. reflexivity.
Qed.

(** Scenario D of the specification: the name of three spaces. *)
Lemma join_without_a_name_is_rejected_witness :
  get (Sample.join_body "   ") (js "name") = Ok (VStr (js "   ")) /\
  trim (js "   ") = [] /\
  @cleanName Sample.engine (VStr (js "   ")) = Ok [] /\
  @join Sample.engine Sample.one_row (Sample.join_body "   ")
        Sample.uuid1 Sample.t0 Sample.t1
    = Some (Sample.one_row, Failed 400 name_required, []).
Proof.
  split; [reflexivity|]. split; [reflexivity|]. split; [reflexivity|].
  apply (join_without_a_name_is_rejected Sample.engine Sample.one_row
           (Sample.join_body "   ") (VStr (js "   "))); reflexivity.
Defined.





(** Scenario A of the specification, evaluated: [join("Dana")] twice gives two
    rows named Dana under the two ids. *)
Example scenario_A_two_joins_same_name :
  exists (st1 st2 : state) (r1 r2 : reply) (w1 w2 : list effect),
    @join Sample.engine initial_state (Sample.join_body "Dana")
          Sample.uuid1 Sample.t0 Sample.t1 = Some (st1, r1, w1) /\
    @join Sample.engine st1 (Sample.join_body "Dana")
          Sample.uuid2 Sample.t2 Sample.t3 = Some (st2, r2, w2) /\
    map (fun kp => (fst kp, name (snd kp))) (participants st2)
      = [ (Sample.uuid1, Some (js "Dana"));
          (Sample.uuid2, Some (js "Dana")) ].
Proof.
  do 6 eexists. split; [vm_compute; reflexivity|].
  split; [vm_compute; reflexivity|]. vm_compute. reflexivity.
Qed.

(** An update whose id the registry does not answer to is answered
    [404 participant_not_found], changes nothing and writes nothing. *)
Lemma update_unknown_id {B : Builtins} (st : state) (body idv : value)
    (s now now' : jsstring) :
  get body (js "id") = Ok idv ->
  ToString (or_else idv (VStr [])) = Ok s ->
  participants_get st (trim s) = NoProperty ->
  update st body now now' = Some (st, Failed 404 participant_not_found, []).
Proof.
  intros Hid Hs Hget. unfold update. rewrite Hid. cbn [bind]. rewrite Hs, Hget.
  destruct (trim s); reflexivity.
Qed.

(** Scenario E of the specification: an update for an id nobody has. *)
Example scenario_E_unknown_id (B : Builtins) (now now' : jsstring) :
  update Sample.one_row (Sample.id_only_body "ghost") now now'
  = Some (Sample.one_row, Failed 404 participant_not_found, []).
Proof.
  apply (update_unknown_id _ _ (VStr (js "ghost")) (js "ghost")); reflexivity.
Qed.

(** C10. An update that names a record the registry owns, and whose [stats]
    is missing, [null] or not an object, is answered as a success: the record
    is replaced by itself with [updatedAt] set to the current time, every
    other id reads as before, and the snapshot of the resulting registry is
    written.  (The registry is one whose rows the HTML table can show, so
    that [persistState] returns.) *)
Theorem update_without_stats_refreshes_updatedAt (B : Builtins) (st : state)
    (body idv stats : value) (s now now' : jsstring) (p : participant) :
  get body (js "id") = Ok idv ->
  ToString (or_else idv (VStr [])) = Ok s ->
  trim s <> [] ->
  participants_get st (trim s) = Own p ->
  get body (js "stats") = Ok stats ->
  stats = VUndefined \/ stats = VNull \/ typeof_object stats = false ->
  renderable st ->
  let p' := set_updatedAt (VStr now) p in
  exists st' : state,
    update st body now now' =
      Some (st', Updated p' (ranked st'),
            [ WriteData {| snapshot_updatedAt := now';
                           snapshot_participants := ranked st' |};
              WriteTable (ranked st') ]) /\
    participants st' = replace_own (trim s) p' (participants st) /\
    participants_get st' (trim s) = Own p' /\
    (forall k, k <> trim s -> participants_get st' k = participants_get st k) /\
    List.length (participants st') = List.length (participants st) /\
    updatedAt p' = VStr now /\
    (id p' = id p /\ name p' = name p /\
     totalMistakes p' = totalMistakes p /\ roundMistakes p' = roundMistakes p /\
     completedRounds p' = completedRounds p /\ totalFound p' = totalFound p /\
     lastRoundMs p' = lastRoundMs p /\ bestRoundMs p' = bestRoundMs p /\
     currentMiniGame p' = currentMiniGame p /\
     currentMiniGameIndex p' = currentMiniGameIndex p).
Proof.
  intros Hid Hs Hne Hget Hstats Hshape Hst p'.
  destruct (participants_set_own st (trim s) p p' Hget)
    as (st' & Hset & Hparts & Hown & Hother & Hlen).
  assert (Hst' : renderable st').
  { unfold renderable. rewrite Hparts.
    apply Forall_replace_own; [|exact Hst].
    apply (renders_text _ now). reflexivity. }
  exists st'. split; [|repeat split; assumption].
  unfold update. rewrite Hid. cbn [bind]. rewrite Hs, Hget.
  destruct (trim s) as [|c rest] eqn:Et; [congruence|].
  cbn [is_object negb]. rewrite Hstats. cbn [bind spread].
  assert (Hempty : (truthy body && typeof_object stats && truthy stats)%bool
                   = false).
  { destruct Hshape as [->|[->|Hobj]].
    - apply andb_false_r.
    - apply andb_false_r.
    - rewrite Hobj, andb_false_r. reflexivity. }
  rewrite Hempty.
  change (normalizeStatsPatch p (VObj []) now) with (Ok p').
  cbv beta iota. rewrite Hset. apply persist_and_reply_total, Hst'.
Qed.

(** An update of the one row of a registry with [stats: null]. *)
Lemma update_without_stats_refreshes_updatedAt_witness :
  let body := Sample.update_body "p1" VNull in
  let p := Sample.row "p1" "Dana" 2 5 in
  get body (js "id") = Ok (VStr (js "p1")) /\
  @ToString Sample.engine (or_else (VStr (js "p1")) (VStr [])) = Ok (js "p1") /\
  trim (js "p1") <> [] /\
  participants_get Sample.one_row (trim (js "p1")) = Own p /\
  get body (js "stats") = Ok VNull /\
  @renderable Sample.engine Sample.one_row /\
  exists st' : state,
    @update Sample.engine Sample.one_row body Sample.t2 Sample.t3 =
      Some (st', Updated (set_updatedAt (VStr Sample.t2) p)
                         (@ranked Sample.engine st'),
            [ WriteData {| snapshot_updatedAt := Sample.t3;
                           snapshot_participants :=
                             @ranked Sample.engine st' |};
              WriteTable (@ranked Sample.engine st') ]) /\
    participants st' = [(js "p1", set_updatedAt (VStr Sample.t2) p)].
Proof.
  intros body p.
  assert (Hne : trim (js "p1") <> []) by discriminate.
  do 2 (split; [reflexivity|]). split; [exact Hne|].
  do 2 (split; [reflexivity|]).
  assert (Hst : @renderable Sample.engine Sample.one_row)
    by (repeat constructor).
  split; [exact Hst|].
  destruct (update_without_stats_refreshes_updatedAt Sample.engine
              Sample.one_row body (VStr (js "p1")) VNull (js "p1")
              Sample.t2 Sample.t3 p
              eq_refl eq_refl Hne eq_refl eq_refl
              (or_intror (or_introl eq_refl)) Hst)
    as (st' & Hupdate & Hparts & _).
  exists st'. split; [exact Hupdate | exact Hparts].
Defined.

(** ** Invariants of a running registry *)

Section Invariants.
Context {B : Builtins}.

Lemma Forall_insert_by_inv {A : Type} (P : A -> Prop)
    (cmp : A -> A -> number) (x : A) (l : list A) :
  Forall P (insert_by cmp x l) -> P x /\ Forall P l.
Proof.
  induction l as [|y rest IH]; simpl; intros H.
  - inversion H; subst. split; [assumption | constructor].
  - destruct (positive (cmp x y)).
    + inversion H as [|? ? Hy Hrest]; subst.
      destruct (IH Hrest) as [Hx Hl]. split; [exact Hx|].
      constructor; assumption.
    + inversion H; subst. split; assumption.
Qed.

Lemma Forall_sort_by_inv {A : Type} (P : A -> Prop) (cmp : A -> A -> number)
    (l : list A) :
  Forall P (sort_by cmp l) -> Forall P l.
Proof.
  induction l as [|x rest IH]; simpl; intros H; [constructor|].
  apply Forall_insert_by_inv in H. destruct H as [Hx Hrest].
  constructor; [exact Hx | exact (IH Hrest)].
Qed.

Lemma render_rows_Ok (rows : list participant) :
  render_rows rows = Ok tt -> Forall renders rows.
Proof.
  induction rows as [|row rest IH]; simpl; intros H; [constructor|].
  bind_inv H. destruct x. constructor; [exact E | exact (IH H)].
Qed.

(** A process that is running has a registry whose rows the table can show:
    [persistState] returned at its start, and does so only on such a
    registry. *)
Lemma persistState_returns_renderable (st : state) (now : jsstring)
    (writes : list effect) :
  persistState st now = (writes, Ok tt) -> renderable st.
Proof.
  unfold persistState, buildScoreboardHtml.
  rewrite participantsList_total. cbn [bind].
  destruct (render_rows (sort_by score (map snd (participants st)))) as [[]|e]
    eqn:E; cbn [bind]; [|discriminate].
  intros _. apply (Forall_sort_by_inv _ score), render_rows_Ok, E.
Qed.

Lemma Math_max_zero_ok (x : number) :
  isFinite x = true -> counter_ok (Some (Math_max zero x)).
Proof.
  destruct x as [q| | |]; try discriminate. intros _.
  unfold Math_max, zero, counter_ok.
  destruct (Q2Qc 0 ?= q)%Qc eqn:E.
  - exists (Q2Qc 0). split; [reflexivity|]. apply Qcle_refl.
  - exists q. split; [reflexivity|].
    apply Qclt_le_weak, Qclt_alt, E.
  - exists (Q2Qc 0). split; [reflexivity|]. apply Qcle_refl.
Qed.

Lemma zero_counter_ok : counter_ok (Some zero).
Proof. exists (Q2Qc 0). split; [reflexivity | apply Qcle_refl]. Qed.

(** The record [join] creates has all its counters at 0. *)
Lemma new_participant_counters_ok (new_id name0 now : jsstring) :
  counters_ok (new_participant new_id name0 now).
Proof. repeat split; apply zero_counter_ok. Qed.

(** Carries [counter_ok] of the field read by [proj] through the steps: a
    step either keeps the field or assigns it a maximum with 0. *)
Ltac ok_through proj :=
  repeat match goal with
  | D : (_ /\ ?n' = ?n) \/ _, H : counter_ok (proj ?n) |- _ =>
      assert (counter_ok (proj n'))
        by (first [ destruct D as [[? ->]|[? [? [? ->]]]]
                  | destruct D as [[? ->]|[? [? ->]]] ];
            first [ exact H | apply Math_max_zero_ok; assumption ]);
      clear D H
  | D : ?n' = ?n \/ _, H : counter_ok (proj ?n) |- _ =>
      assert (counter_ok (proj n'))
        by (destruct D as [->|[? [? ->]]]; exact H);
      clear D H
  end;
  assumption.

(** [normalizeStatsPatch] keeps the six counters finite and at least 0. *)
Lemma normalizeStatsPatch_keeps_counters_ok (existing : participant)
    (patch : value) (now : jsstring) (next : participant) :
  counters_ok existing ->
  normalizeStatsPatch existing patch now = Ok next ->
  counters_ok next.
Proof.
  intros (H1 & H2 & H3 & H4 & H5 & H6) H.
  apply normalizeStatsPatch_steps in H.
  destruct H as (n0 & n1 & n2 & n3 & n4 & n5 & n6 & n7 & n8 &
                 D0 & D1 & D2 & D3 & D4 & D5 & D6 & D7 & D8 & ->).
  unfold counters_ok. cbn [set_updatedAt totalMistakes roundMistakes
    completedRounds totalFound lastRoundMs bestRoundMs].
  split; [clear H2 H3 H4 H5 H6; ok_through totalMistakes|].
  split; [clear H1 H3 H4 H5 H6; ok_through roundMistakes|].
  split; [clear H1 H2 H4 H5 H6; ok_through completedRounds|].
  split; [clear H1 H2 H3 H5 H6; ok_through totalFound|].
  split; [clear H1 H2 H3 H4 H6; ok_through lastRoundMs|].
  clear H1 H2 H3 H4 H5; ok_through bestRoundMs.
Qed.

(** ** Loading one entry *)

(** An entry whose id or name is empty once cleaned changes nothing. *)
Lemma load_row_invalid (st : state) (row idv namev : value)
    (s nm now : jsstring) :
  get row (js "id") = Ok idv ->
  ToString (or_else idv (VStr [])) = Ok s ->
  get row (js "name") = Ok namev ->
  cleanName namev = Ok nm ->
  trim s = [] \/ nm = [] ->
  load_row st row now = Ok (Some st).
Proof.
  intros Hid Hs Hname Hnm Hempty. unfold load_row.
  rewrite Hid. cbn [bind]. rewrite Hs. cbn [bind].
  rewrite Hname. cbn [bind]. rewrite Hnm. cbn [bind].
  destruct Hempty as [-> | ->]; [reflexivity|].
  destruct (trim s); reflexivity.
Qed.

(** A valid entry whose conversions return is stored under its trimmed id,
    with its cleaned name, finite counters and the [updatedAt] it had when
    that is truthy. *)
Lemma load_row_valid (st : state) (row idv namev : value)
    (s nm now : jsstring) (r : option state) :
  get row (js "id") = Ok idv ->
  ToString (or_else idv (VStr [])) = Ok s ->
  get row (js "name") = Ok namev ->
  cleanName namev = Ok nm ->
  trim s <> [] -> nm <> [] ->
  load_row st row now = Ok r ->
  exists p : participant,
    r = participants_set st (trim s) p /\
    id p = Some (trim s) /\ name p = Some nm /\
    (exists n, totalMistakes p = Some n /\ isFinite n = true) /\
    (exists n, roundMistakes p = Some n /\ isFinite n = true) /\
    (exists n, completedRounds p = Some n /\ isFinite n = true) /\
    (exists n, totalFound p = Some n /\ isFinite n = true) /\
    (exists n, lastRoundMs p = Some n /\ isFinite n = true) /\
    (exists n, bestRoundMs p = Some n /\ isFinite n = true) /\
    (forall u, get row (js "updatedAt") = Ok u -> truthy u = true ->
               updatedAt p = u).
Proof.
  intros Hid Hs Hname Hnm Hne Hnmne. unfold load_row.
  rewrite Hid. cbn [bind]. rewrite Hs. cbn [bind].
  rewrite Hname. cbn [bind]. rewrite Hnm. cbn [bind].
  destruct (trim s) as [|c rest]; [congruence|].
  destruct nm as [|d nm]; [congruence|].
  intros H. do 17 bind_inv H. injection H as <-.
  eexists. split; [reflexivity|].
  cbn [id name totalMistakes roundMistakes completedRounds totalFound
       lastRoundMs bestRoundMs updatedAt].
  repeat match goal with
  | |- _ /\ _ => split
  | |- exists n, Some _ = Some n /\ _ =>
      eexists; split; [reflexivity | eapply safeNum_finite; eassumption]
  end; try reflexivity.
  intros u Hu Ht.
  match goal with
  | Hget : get row (js "updatedAt") = Ok ?x |- _ =>
      rewrite Hget in Hu; injection Hu as ->
  end.
  unfold or_else. rewrite Ht. reflexivity.
Qed.

End Invariants.

(** ** The round trip through the data file *)

Section RoundTrip.
Context {B : Builtins}.

Lemma reparse_participant_value (p : participant) :
  stored p -> reparse (participant_value p) = participant_value p.
Proof.
  destruct p as [i n tm rm cr tf lr br cm cmi u]. unfold stored.
  cbn [id name totalMistakes roundMistakes completedRounds totalFound
       lastRoundMs bestRoundMs currentMiniGame currentMiniGameIndex updatedAt].
  intros ((k & -> & _) & (nm & -> & _) & (q1 & ->) & (q2 & ->) & (q3 & ->) &
          (q4 & ->) & (q5 & ->) & (q6 & ->) & (s & ->) & (q7 & ->) & Ht & Hr).
  unfold participant_value.
  cbn [id name totalMistakes roundMistakes completedRounds totalFound
       lastRoundMs bestRoundMs currentMiniGame currentMiniGameIndex updatedAt
       str_prop num_prop].
  destruct u; try discriminate Ht; simpl in Hr |- *; rewrite ?Hr; reflexivity.
Qed.

Lemma load_row_stored (st0 : state) (p : participant) (now : jsstring) :
  stored p ->
  load_row st0 (participant_value p) now
  = Ok (participants_set st0 (key_of p) p).
Proof.
  destruct p as [i n tm rm cr tf lr br cm cmi u]. unfold stored, key_of.
  cbn [id name totalMistakes roundMistakes completedRounds totalFound
       lastRoundMs bestRoundMs currentMiniGame currentMiniGameIndex updatedAt].
  intros ((k & -> & Hk & Hkt & _) & (nm & -> & Hnm & Hnmt) & (q1 & ->) &
          (q2 & ->) & (q3 & ->) & (q4 & ->) & (q5 & ->) & (q6 & ->) &
          (s & ->) & (q7 & ->) & Ht & _).
  unfold load_row, participant_value.
  cbn [id name totalMistakes roundMistakes completedRounds totalFound
       lastRoundMs bestRoundMs currentMiniGame currentMiniGameIndex updatedAt
       str_prop num_prop].
  change (get (VObj ?l) (js "id")) with (Ok (VStr k)).
  cbn [bind].
  replace (ToString (or_else (VStr k) (VStr []))) with (Ok k : result jsstring)
    by (destruct k; [congruence | reflexivity]).
  cbn [bind]. rewrite Hkt.
  change (get (VObj ?l) (js "name")) with (Ok (VStr nm)).
  cbn [bind]. rewrite cleanName_text, Hnmt. cbn [bind].
  destruct k as [|c k]; [congruence|]. destruct nm as [|d nm]; [congruence|].
  change (get (VObj ?l) (js "totalMistakes")) with (Ok (VNum (Fin q1))).
  change (get (VObj ?l) (js "roundMistakes")) with (Ok (VNum (Fin q2))).
  change (get (VObj ?l) (js "completedRounds")) with (Ok (VNum (Fin q3))).
  change (get (VObj ?l) (js "totalFound")) with (Ok (VNum (Fin q4))).
  change (get (VObj ?l) (js "lastRoundMs")) with (Ok (VNum (Fin q5))).
  change (get (VObj ?l) (js "bestRoundMs")) with (Ok (VNum (Fin q6))).
  change (get (VObj ?l) (js "currentMiniGame")) with (Ok (VStr s)).
  change (get (VObj ?l) (js "currentMiniGameIndex")) with (Ok (VNum (Fin q7))).
  change (get (VObj ?l) (js "updatedAt")) with (Ok u).
  cbn [bind safeNum ToNumber isFinite].
  replace (ToString (or_else (VStr s) (VStr []))) with (Ok s : result jsstring)
    by (destruct s; reflexivity).
  cbn [bind]. unfold or_else. rewrite Ht. reflexivity.
Qed.

Lemma create_own_appends (k : jsstring) (p : participant)
    (l : list (jsstring * participant)) :
  array_index k = None -> create_own k p l = l ++ [(k, p)].
Proof.
  intros Hk. induction l as [|[k' p'] rest IH]; simpl; [reflexivity|].
  unfold created_before. rewrite Hk. rewrite IH. reflexivity.
Qed.

Lemma own_record_app (k : jsstring) (l l' : list (jsstring * participant)) :
  own_record k (l ++ l') =
  match own_record k l with
  | Some p => Some p
  | None => own_record k l'
  end.
Proof.
  induction l as [|[k' p'] rest IH]; simpl; [reflexivity|].
  destruct (str_eq_dec k k'); [reflexivity | exact IH].
Qed.

Lemma stored_key (p : participant) :
  stored p ->
  id p = Some (key_of p) /\ array_index (key_of p) = None /\
  key_of p <> js "__proto__".
Proof.
  unfold key_of. intros ((k & Hk & _ & _ & Hi & Hp) & _). rewrite Hk.
  auto.
Qed.

(** Loading the entries written for stored rows appends the rows, in their
    order, each under its id. *)
Lemma load_rows_stored (rows : list participant) :
  forall (st0 : state) (now : nat -> jsstring),
    Forall stored rows ->
    NoDup (map key_of rows) ->
    (forall p, In p rows -> own_record (key_of p) (participants st0) = None) ->
    load_rows st0 (map participant_value rows) now =
    Some {| participants :=
              participants st0 ++ map (fun p => (key_of p, p)) rows |}.
Proof.
  induction rows as [|p rest IH]; intros st0 now Hstored Hnodup Hfresh.
  - simpl. rewrite app_nil_r. destruct st0; reflexivity.
  - inversion Hstored as [|? ? Hp Hrest]; subst.
    inversion Hnodup as [|? ? Hnotin Hnodup']; subst.
    destruct (stored_key p Hp) as (_ & Hindex & Hproto).
    cbn [map load_rows]. rewrite load_row_stored by exact Hp.
    unfold participants_set.
    rewrite (Hfresh p) by (left; reflexivity).
    unfold str_eqb.
    destruct (str_eq_dec (key_of p) (js "__proto__")); [contradiction|].
    rewrite create_own_appends by exact Hindex.
    rewrite IH; [| exact Hrest | exact Hnodup' |].
    + cbn [participants map]. rewrite <- app_assoc. reflexivity.
    + intros p' Hin. cbn [participants]. rewrite own_record_app.
      rewrite (Hfresh p') by (right; exact Hin).
      simpl. destruct (str_eq_dec (key_of p') (key_of p)) as [E|_];
        [|reflexivity].
      exfalso. apply Hnotin. rewrite <- E. apply in_map, Hin.
Qed.

Lemma insert_by_Permutation {A : Type} (cmp : A -> A -> number) (x : A)
    (l : list A) :
  Permutation (insert_by cmp x l) (x :: l).
Proof.
  induction l as [|y rest IH]; simpl; [reflexivity|].
  destruct (positive (cmp x y)); [|reflexivity].
  rewrite IH. apply perm_swap.
Qed.

Lemma sort_by_Permutation {A : Type} (cmp : A -> A -> number) (l : list A) :
  Permutation (sort_by cmp l) l.
Proof.
  induction l as [|x rest IH]; simpl; [reflexivity|].
  rewrite insert_by_Permutation. constructor. exact IH.
Qed.

Lemma well_stored_values (st : state) :
  well_stored st ->
  Forall stored (map snd (participants st)) /\
  NoDup (map key_of (map snd (participants st))).
Proof.
  intros [Hall Hnodup]. split.
  - apply Forall_map. eapply Forall_impl; [|exact Hall].
    intros kp [_ H]. exact H.
  - replace (map key_of (map snd (participants st)))
      with (map fst (participants st)); [exact Hnodup|].
    rewrite map_map. apply map_ext_Forall.
    eapply Forall_impl; [|exact Hall]. intros kp [H _]. exact H.
Qed.

(** The collation of the engine is taken to be antisymmetric. *)
Hypothesis localeCompare_antisym :
  forall s t : jsstring,
    Z.sgn (localeCompare_he t s) = (- Z.sgn (localeCompare_he s t))%Z.

(** For a registry of stored rows the round trip holds: the registry loaded
    from the snapshot that [persistState] wrote holds the persisted rows in
    their order, and its ranked list is the persisted one. *)
Lemma reload_of_stored_rows (st : state) (now : jsstring)
    (now' : nat -> jsstring) :
  well_stored st ->
  exists st' : state,
    loadState initial_state
      (written_file {| snapshot_updatedAt := now;
                       snapshot_participants := ranked st |}) now'
      = Some st' /\
    map snd (participants st') = ranked st /\
    participantsList st' = Ok (ranked st).
Proof.
  intros Hst. destruct (well_stored_values st Hst) as [Hstored Hnodup].
  assert (Hperm : Permutation (ranked st) (map snd (participants st)))
    by apply sort_by_Permutation.
  assert (Hstored' : Forall stored (ranked st)).
  { apply Forall_forall. intros p Hin.
    apply (proj1 (Forall_forall _ _) Hstored).
    apply (Permutation_in _ Hperm), Hin. }
  assert (Hnodup' : NoDup (map key_of (ranked st))).
  { apply (Permutation_NoDup (l := map key_of (map snd (participants st))));
      [|exact Hnodup].
    apply Permutation_map. symmetry. exact Hperm. }
  exists {| participants := map (fun p => (key_of p, p)) (ranked st) |}.
  split; [|split].
  - unfold loadState, written_file. cbn [snapshot_participants snapshot_updatedAt].
    replace (reparse _) with
      (VObj [ (js "updatedAt", VStr now);
              (js "participants", VArr (map participant_value (ranked st))) ]).
    + change (get (VObj ?l) (js "participants"))
        with (Ok (VArr (map participant_value (ranked st)))).
      cbv beta iota.
      rewrite (load_rows_stored (ranked st) initial_state now')
        by (auto; intros; reflexivity).
      reflexivity.
    + cbn [reparse]. rewrite map_map. do 5 f_equal.
      apply map_ext_Forall. eapply Forall_impl; [|exact Hstored'].
      intros p Hp. cbv beta.
      rewrite (reparse_participant_value p Hp). reflexivity.
  - cbn [participants]. rewrite map_map. apply map_id.
  - rewrite participantsList_total. f_equal. cbn [participants].
    rewrite map_map, map_id.
    apply sort_by_of_Sorted. apply sort_by_Sorted.
    apply (score_total localeCompare_antisym).
Qed.

End RoundTrip.

(** ** Where the code departs from the specification *)

(** C8, at the failing input.  On the empty registry, an update for the id
    [constructor], which no participant has, finds the function
    [Object.prototype.constructor] under that name: it is answered as a
    success, a row without id, name or counters is created under the name,
    and the snapshot is written. *)
Theorem update_of_an_inherited_name_creates_a_row (B : Builtins)
    (now now' : jsstring) :
  let p := set_updatedAt (VStr now) empty_object in
  own_record (js "constructor") (participants initial_state) = None /\
  update initial_state (Sample.id_only_body "constructor") now now' =
    Some ({| participants := [(js "constructor", p)] |},
          Updated p [p],
          [ WriteData {| snapshot_updatedAt := now';
                         snapshot_participants := [p] |};
            WriteTable [p] ]).
Proof.
  split; [reflexivity|]. destruct now; vm_compute; reflexivity.
Qed.

(** C5, at the failing input.  A persisted entry whose [totalMistakes] is
    [-5] is loaded with that counter: [loadState] makes the counters finite
    but does not raise them to 0 as [normalizeStatsPatch] does. *)
Theorem loadState_keeps_a_negative_counter (B : Builtins)
    (now : nat -> jsstring) :
  exists p : participant,
    loadState initial_state
      (Sample.file_of
         [Sample.entry "p1" "Dana"
            [(js "totalMistakes", VNum (of_Z (-5)))]]) now
      = Some {| participants := [(js "p1", p)] |} /\
    totalMistakes p = Some (of_Z (-5)) /\
    ~ counters_ok p.
Proof.
  eexists. split; [vm_compute; reflexivity|]. split; [reflexivity|].
  intros ((q & Hq & Hle) & _). cbn [totalMistakes] in Hq.
  injection Hq as <-. vm_compute in Hle. apply Hle. reflexivity.
Qed.

(** C6, at the failing input.  A [null] entry makes the read of its [id]
    throw; the exception leaves the loop, so the valid entry behind it is not
    loaded, although alone it is. *)
Theorem loadState_stops_at_a_null_entry (B : Builtins) (now : nat -> jsstring) :
  loadState initial_state
    (Sample.file_of [VNull; Sample.entry "p1" "Dana" []]) now
    = Some initial_state /\
  exists p : participant,
    loadState initial_state (Sample.file_of [Sample.entry "p1" "Dana" []]) now
      = Some {| participants := [(js "p1", p)] |}.
Proof.
  split; [vm_compute; reflexivity|]. eexists. vm_compute. reflexivity.
Qed.

(** Scenario F of the specification: an entry without [id] before a valid
    one.  The valid entry alone is loaded, with the [updatedAt] it had. *)
Example scenario_F_entry_without_id (B : Builtins) (now : nat -> jsstring) :
  exists p : participant,
    loadState initial_state
      (Sample.file_of
         [ VObj [(js "name", VStr (js "Eli"))];
           Sample.entry "p1" "Dana" [(js "updatedAt", VStr Sample.t0)] ]) now
      = Some {| participants := [(js "p1", p)] |} /\
    id p = Some (js "p1") /\ name p = Some (js "Dana") /\
    updatedAt p = VStr Sample.t0.
Proof. eexists. split; [vm_compute; reflexivity|]. repeat split. Qed.

(** C4, at the failing input.  A name of more than 28 code units whose 28th
    is a space is stored with that space at its end ([cleanName] trims before
    it cuts).  The snapshot written after the join holds the name as stored;
    [loadState] cleans it again, so the ranked list of the reloaded registry
    is not the persisted one.  And the row without id that the update of C8
    leaves is persisted but not loaded again: the reloaded registry is
    empty.  (For rows that [loadState] reads back as they are the round trip
    holds: [reload_of_stored_rows].) *)
Theorem reload_differs_from_the_persisted_snapshot (B : Builtins) :
  (exists (st st' : state) (r : reply) (payload : snapshot)
          (rows ranked' : list participant),
     join initial_state (Sample.join_body Sample.long_name)
          Sample.uuid1 Sample.t0 Sample.t1
       = Some (st, r, [WriteData payload; WriteTable rows]) /\
     loadState initial_state (written_file payload) (fun _ => Sample.t2)
       = Some st' /\
     participantsList st' = Ok ranked' /\
     map name (snapshot_participants payload)
       = [Some (js "The Incredible Team Alpha-1 ")] /\
     map name ranked' = [Some (js "The Incredible Team Alpha-1")] /\
     ranked' <> snapshot_participants payload) /\
  (exists (st : state) (r : reply) (payload : snapshot)
          (rows : list participant),
     update initial_state (Sample.id_only_body "constructor")
            Sample.t0 Sample.t1
       = Some (st, r, [WriteData payload; WriteTable rows]) /\
     List.length (snapshot_participants payload) = 1%nat /\
     loadState initial_state (written_file payload) (fun _ => Sample.t2)
       = Some initial_state /\
     participantsList initial_state = Ok []).
Proof.
  split.
  - do 6 eexists. split; [vm_compute; reflexivity|].
    split; [vm_compute; reflexivity|].
    split; [vm_compute; reflexivity|].
    split; [vm_compute; reflexivity|].
    split; [vm_compute; reflexivity|].
    intros E. apply (f_equal (map name)) in E. vm_compute in E.
    discriminate E.
  - do 4 eexists. split; [vm_compute; reflexivity|].
    split; [vm_compute; reflexivity|].
    split; vm_compute; reflexivity.
Qed.

(** The same round trip for a name that cleaning leaves alone. *)
Example reload_of_a_clean_name (B : Builtins) :
  exists (st st' : state) (r : reply) (payload : snapshot)
         (rows : list participant),
    join initial_state (Sample.join_body "Dana")
         Sample.uuid1 Sample.t0 Sample.t1
      = Some (st, r, [WriteData payload; WriteTable rows]) /\
    loadState initial_state (written_file payload) (fun _ => Sample.t2)
      = Some st' /\
    participantsList st' = Ok (snapshot_participants payload).
Proof.
  do 5 eexists. split; [vm_compute; reflexivity|].
  split; vm_compute; reflexivity.
Qed.

(* ================================================================== *)
(** * Further properties of the program *)
(* ================================================================== *)

(** ** Trimming *)

Lemma trimStart_head (s : jsstring) (c : N) (r : jsstring) :
  trimStart s = c :: r -> is_white_space c = false.
Proof.
  induction s as [|d s IH]; simpl; [discriminate|].
  destruct (is_white_space d) eqn:E; [exact IH|].
  intros H. injection H as <- _. exact E.
Qed.

Lemma trimStart_fixed (s : jsstring) :
  (forall c r, s = c :: r -> is_white_space c = false) -> trimStart s = s.
Proof.
  destruct s as [|c r]; [reflexivity|]. intros H. simpl.
  rewrite (H c r eq_refl). reflexivity.
Qed.

Lemma length_trimStart (s : jsstring) :
  (List.length (trimStart s) <= List.length s)%nat.
Proof.
  induction s as [|d s IH]; simpl; [lia|].
  destruct (is_white_space d); simpl; lia.
Qed.

Lemma length_trim (s : jsstring) : (List.length (trim s) <= List.length s)%nat.
Proof.
  unfold trim. rewrite length_rev.
  etransitivity; [apply length_trimStart|]. rewrite length_rev.
  apply length_trimStart.
Qed.

(** Trimming at the end, one code unit at a time. *)
Lemma trimEnd_snoc (t : jsstring) (c : N) :
  rev (trimStart (rev (t ++ [c]))) =
  if is_white_space c then rev (trimStart (rev t)) else t ++ [c].
Proof.
  rewrite rev_app_distr. simpl.
  destruct (is_white_space c); [reflexivity|].
  simpl. rewrite rev_involutive. reflexivity.
Qed.

Lemma trimEnd_head (t : jsstring) :
  forall c r, t = c :: r -> is_white_space c = false ->
  exists r', rev (trimStart (rev t)) = c :: r'.
Proof.
  induction t as [|d u IH] using rev_ind; intros c r Ht Hc; [discriminate|].
  rewrite trimEnd_snoc. destruct (is_white_space d) eqn:Ed.
  - destruct u as [|c' u'].
    + simpl in Ht. injection Ht as -> _. congruence.
    + simpl in Ht. injection Ht as -> _. apply (IH c u' eq_refl Hc).
  - exists r. exact Ht.
Qed.

Lemma trim_head (s : jsstring) (c : N) (r : jsstring) :
  trim s = c :: r -> is_white_space c = false.
Proof.
  unfold trim. destruct (trimStart s) as [|c0 r0] eqn:E; [discriminate|].
  pose proof (trimStart_head s c0 r0 E) as Hc0.
  destruct (trimEnd_head (c0 :: r0) c0 r0 eq_refl Hc0) as [r' Hr'].
  rewrite Hr'. intros H. injection H as <- _. exact Hc0.
Qed.

Lemma trim_last (s : jsstring) (r : jsstring) (c : N) :
  trim s = r ++ [c] -> is_white_space c = false.
Proof.
  unfold trim. intros H. apply (f_equal (@rev N)) in H.
  rewrite rev_involutive, rev_app_distr in H. simpl in H.
  exact (trimStart_head _ _ _ H).
Qed.

(** A text that neither starts nor ends with white space is left as it is. *)
Lemma trim_fixed (s : jsstring) :
  (forall c r, s = c :: r -> is_white_space c = false) ->
  (forall r c, s = r ++ [c] -> is_white_space c = false) ->
  trim s = s.
Proof.
  intros Hhead Hlast. unfold trim. rewrite (trimStart_fixed s Hhead).
  rewrite trimStart_fixed; [apply rev_involutive|].
  intros c r Hrev. apply (Hlast (rev r) c).
  rewrite <- (rev_involutive s), Hrev. reflexivity.
Qed.

Lemma trim_idempotent (s : jsstring) : trim (trim s) = trim s.
Proof.
  apply trim_fixed; intros; [eapply trim_head | eapply trim_last]; eassumption.
Qed.

(** ** [cleanName] *)

Section CleanName.
Context {B : Builtins}.

Lemma cleanName_Ok (v : value) (s : jsstring) :
  cleanName v = Ok s -> exists t : jsstring, s = slice0 28 (trim t).
Proof.
  unfold cleanName. intros H. bind_inv H. injection H as <-.
  eexists. reflexivity.
Qed.

Lemma cleanName_bounds (v : value) (s : jsstring) :
  cleanName v = Ok s ->
  (List.length s <= 28)%nat /\
  (forall c r, s = c :: r -> is_white_space c = false).
Proof.
  intros H. destruct (cleanName_Ok v s H) as [t ->]. unfold slice0. split.
  - rewrite length_firstn. lia.
  - intros c r Hs. destruct (trim t) as [|c0 r0] eqn:E; [discriminate|].
    simpl in Hs. injection Hs as <- _. exact (trim_head t c0 r0 E).
Qed.

(** X1. Whatever the value, a name that [cleanName] returns has at most 28
    code units and does not start with white space; when the text of the
    value, once trimmed, has at most 28 code units, the name does not end
    with white space either. *)
Theorem cleanName_is_bounded_and_starts_with_text (v : value) (s : jsstring) :
  cleanName v = Ok s ->
  (List.length s <= 28)%nat /\
  (forall c r, s = c :: r -> is_white_space c = false) /\
  (forall t : jsstring,
     ToString (or_else v (VStr [])) = Ok t ->
     (List.length (trim t) <= 28)%nat ->
     forall r c, s = r ++ [c] -> is_white_space c = false).
Proof.
  intros H. destruct (cleanName_bounds v s H) as [Hlen Hhead].
  split; [exact Hlen|]. split; [exact Hhead|].
  intros t Ht Hshort r c Hs.
  assert (Hcut : s = firstn 28 (trim t)).
  { unfold cleanName in H. rewrite Ht in H. cbn [bind] in H.
    unfold slice0 in H. congruence. }
  rewrite firstn_all2 in Hcut by exact Hshort.
  apply (trim_last t r c). congruence.
Qed.

(** X2. Cleaning a cleaned name once more only trims it (the cut at 28 can
    have left white space at its end), and what that gives is left as it is
    by every further cleaning; a text of at most 28 code units once trimmed
    is cleaned to its trimmed form, which is already such a fixed point. *)
Theorem cleanName_settles_after_a_second_pass (v : value) (s : jsstring) :
  cleanName v = Ok s ->
  cleanName (VStr s) = Ok (trim s) /\
  cleanName (VStr (trim s)) = Ok (trim s) /\
  (forall t : jsstring,
     (List.length (trim t) <= 28)%nat ->
     cleanName (VStr t) = Ok (trim t) /\
     cleanName (VStr (trim t)) = Ok (trim t)).
Proof.
  intros H.
  destruct (cleanName_bounds v s H) as [Hlen _].
  assert (Hshort : forall t, (List.length (trim t) <= 28)%nat ->
                             slice0 28 (trim t) = trim t).
  { intros t Ht. unfold slice0. apply firstn_all2. exact Ht. }
  assert (Hs : (List.length (trim s) <= 28)%nat)
    by (pose proof (length_trim s); lia).
  split; [|split].
  - rewrite cleanName_text. f_equal. apply Hshort, Hs.
  - rewrite cleanName_text, trim_idempotent. f_equal. apply Hshort, Hs.
  - intros t Ht. split.
    + rewrite cleanName_text. f_equal. apply Hshort, Ht.
    + rewrite cleanName_text, trim_idempotent. f_equal. apply Hshort, Ht.
Qed.

End CleanName.

(** ** [escapeHtml] *)

Lemma replaceAll_app (c : N) (r s t : jsstring) :
  replaceAll c r (s ++ t) = replaceAll c r s ++ replaceAll c r t.
Proof. unfold replaceAll. apply flat_map_app. Qed.

Lemma escape_chain_unit (c : N) :
  replaceAll 39 (js "&#39;")
    (replaceAll 34 (js "&quot;")
      (replaceAll 62 (js "&gt;")
        (replaceAll 60 (js "&lt;")
          (replaceAll 38 (js "&amp;") [c]))))
  = escape_unit c.
Proof.
  unfold escape_unit, replaceAll. cbn [flat_map].
  destruct (c =? 38)%N eqn:E38; [reflexivity|]. cbn [app flat_map].
  destruct (c =? 60)%N eqn:E60; [reflexivity|]. cbn [app flat_map].
  destruct (c =? 62)%N eqn:E62; [reflexivity|]. cbn [app flat_map].
  destruct (c =? 34)%N eqn:E34; [reflexivity|]. cbn [app flat_map].
  destruct (c =? 39)%N eqn:E39; reflexivity.
Qed.

(** The five replacements in a row replace each code unit on its own: no
    replacement text holds a code unit that a later replacement looks for. *)
Lemma escape_chain (s : jsstring) :
  replaceAll 39 (js "&#39;")
    (replaceAll 34 (js "&quot;")
      (replaceAll 62 (js "&gt;")
        (replaceAll 60 (js "&lt;")
          (replaceAll 38 (js "&amp;") s))))
  = flat_map escape_unit s.
Proof.
  induction s as [|c s IH]; [reflexivity|].
  change (c :: s) with ([c] ++ s).
  rewrite !replaceAll_app, IH, escape_chain_unit. reflexivity.
Qed.

Lemma escape_unit_safe (c : N) :
  Forall (fun d => is_markup d = false) (escape_unit c).
Proof.
  unfold escape_unit.
  destruct (c =? 38)%N eqn:E38; [repeat constructor|].
  destruct (c =? 60)%N eqn:E60; [repeat constructor|].
  destruct (c =? 62)%N eqn:E62; [repeat constructor|].
  destruct (c =? 34)%N eqn:E34; [repeat constructor|].
  destruct (c =? 39)%N eqn:E39; [repeat constructor|].
  constructor; [|constructor]. unfold is_markup.
  rewrite E60, E62, E34, E39. reflexivity.
Qed.

Lemma unescape_escape_unit (c : N) (decoded : jsstring) :
  fold_right unescape_unit decoded (escape_unit c) = c :: decoded.
Proof.
  unfold escape_unit.
  destruct (c =? 38)%N eqn:E38;
    [apply N.eqb_eq in E38; subst; reflexivity|].
  destruct (c =? 60)%N eqn:E60;
    [apply N.eqb_eq in E60; subst; reflexivity|].
  destruct (c =? 62)%N eqn:E62;
    [apply N.eqb_eq in E62; subst; reflexivity|].
  destruct (c =? 34)%N eqn:E34;
    [apply N.eqb_eq in E34; subst; reflexivity|].
  destruct (c =? 39)%N eqn:E39;
    [apply N.eqb_eq in E39; subst; reflexivity|].
  cbn [fold_right]. unfold unescape_unit. rewrite E38. reflexivity.
Qed.

Lemma unescape_escape (s : jsstring) :
  unescapeHtml (flat_map escape_unit s) = s.
Proof.
  unfold unescapeHtml. induction s as [|c s IH]; [reflexivity|].
  cbn [flat_map]. rewrite fold_right_app, IH. apply unescape_escape_unit.
Qed.

Section EscapeHtml.
Context {B : Builtins}.

Lemma escapeHtml_Ok (v : value) (t : jsstring) :
  escapeHtml v = Ok t ->
  exists s : jsstring, ToString v = Ok s /\ t = flat_map escape_unit s.
Proof.
  unfold escapeHtml. intros H. bind_inv H. injection H as <-.
  exists x. split; [exact E | apply escape_chain].
Qed.

(** X3. The text [escapeHtml] returns holds no [<], no [>], no double quote
    and no single quote, whatever the value it was given. *)
Theorem escapeHtml_leaves_no_markup (v : value) (t : jsstring) :
  escapeHtml v = Ok t ->
  Forall (fun c => is_markup c = false) t.
Proof.
  intros H. destruct (escapeHtml_Ok v t H) as (s & _ & ->). clear H.
  induction s as [|c s IH]; cbn [flat_map]; [constructor|].
  apply Forall_app. split; [apply escape_unit_safe | exact IH].
Qed.

(** X4. Escaping loses nothing: reading the five entities back gives the text
    of the value, so two values with the same escaped text have the same
    text. *)
Theorem escapeHtml_can_be_read_back (v : value) (t : jsstring) :
  escapeHtml v = Ok t ->
  ToString v = Ok (unescapeHtml t) /\
  (forall v' : value, escapeHtml v' = Ok t -> ToString v' = ToString v).
Proof.
  intros H. destruct (escapeHtml_Ok v t H) as (s & Hs & ->).
  rewrite unescape_escape. split; [exact Hs|].
  intros v' H'. destruct (escapeHtml_Ok v' _ H') as (s' & Hs' & Heq).
  apply (f_equal unescapeHtml) in Heq. rewrite !unescape_escape in Heq.
  rewrite Hs, Hs', Heq. reflexivity.
Qed.

End EscapeHtml.

(** ** [normalizeStatsPatch] as a merge *)

Section Merge.
Context {B : Builtins}.

Lemma patch_counter_read (patch : value) (f : jsstring)
    (assign : number -> participant -> participant) (next : participant) :
  patch_counter patch f assign next =
  (o <- read_counter patch f ;;
   Ok (match o with Some x => assign x next | None => next end)).
Proof.
  unfold patch_counter, read_counter, present.
  destruct (get patch f) as [v|e]; [|reflexivity]. cbn [bind].
  destruct v; try reflexivity;
    (destruct (safeNum _ zero) as [n|e]; reflexivity).
Qed.

Lemma game_step_present (v : value) (next : participant) :
  match v with
  | VUndefined => Ok next
  | _ => s <- ToString (or_else v (VStr [])) ;;
         Ok (set_currentMiniGame s next)
  end =
  (o <- present v (fun v => ToString (or_else v (VStr []))) ;;
   Ok (match o with Some s => set_currentMiniGame s next | None => next end)).
Proof.
  unfold present.
  destruct v; try reflexivity;
    (destruct (ToString _) as [t|e]; reflexivity).
Qed.

Lemma index_step_present (v : value) (next : participant) :
  match v with
  | VUndefined => Ok next
  | _ => n <- safeNum v zero ;; Ok (set_currentMiniGameIndex n next)
  end =
  (o <- present v (fun v => safeNum v zero) ;;
   Ok (match o with
       | Some n => set_currentMiniGameIndex n next
       | None => next
       end)).
Proof.
  unfold present.
  destruct v; try reflexivity;
    (destruct (safeNum _ zero) as [n|e]; reflexivity).
Qed.

Lemma normalizeStatsPatch_factors (existing : participant)
    (patch : value) (now : jsstring) :
  normalizeStatsPatch existing patch now =
  (c <- read_patch patch ;; Ok (apply_patch c existing now)).
Proof.
  unfold normalizeStatsPatch, read_patch.
  destruct (get patch (js "name")) as [v1|e]; [|reflexivity]. cbn [bind].
  destruct (cleanName v1) as [s|e]; [|reflexivity]. cbn [bind]. cbv zeta.
  destruct (get patch (js "currentMiniGame")) as [v2|e]; [|reflexivity].
  cbn [bind]. rewrite game_step_present.
  destruct (present v2 _) as [game|e]; [|reflexivity]. cbn [bind].
  destruct (get patch (js "currentMiniGameIndex")) as [v3|e]; [|reflexivity].
  cbn [bind]. rewrite index_step_present.
  destruct (present v3 _) as [index|e]; [|reflexivity]. cbn [bind].
  rewrite !patch_counter_read.
  destruct (read_counter patch (js "totalMistakes")) as [o1|e];
    [|reflexivity]. cbn [bind].
  rewrite !patch_counter_read.
  destruct (read_counter patch (js "roundMistakes")) as [o2|e];
    [|reflexivity]. cbn [bind].
  rewrite !patch_counter_read.
  destruct (read_counter patch (js "completedRounds")) as [o3|e];
    [|reflexivity]. cbn [bind].
  rewrite !patch_counter_read.
  destruct (read_counter patch (js "totalFound")) as [o4|e];
    [|reflexivity]. cbn [bind].
  rewrite !patch_counter_read.
  destruct (read_counter patch (js "lastRoundMs")) as [o5|e];
    [|reflexivity]. cbn [bind].
  rewrite !patch_counter_read.
  destruct (read_counter patch (js "bestRoundMs")) as [o6|e];
    [|reflexivity]. cbn [bind].
  f_equal. destruct existing.
  destruct s, game, index, o1, o2, o3, o4, o5, o6; reflexivity.
Qed.

(** X5. [normalizeStatsPatch] is a merge: the patch is read on its own, so
    whether the call throws does not depend on the record or on the time,
    and in the result each field is the normalized value the patch carries
    for it, or else the value the record had; [id] is the record's and
    [updatedAt] the current time. *)
Theorem normalizeStatsPatch_is_a_merge (existing : participant)
    (patch : value) (now : jsstring) :
  normalizeStatsPatch existing patch now =
    (c <- read_patch patch ;; Ok (apply_patch c existing now)) /\
  (forall (existing' : participant) (now' : jsstring) (e : exn),
     normalizeStatsPatch existing patch now = Throw e ->
     normalizeStatsPatch existing' patch now' = Throw e).
Proof.
  split; [apply normalizeStatsPatch_factors|].
  intros existing' now' e. rewrite !normalizeStatsPatch_factors.
  destruct (read_patch patch); cbn [bind]; [discriminate | auto].
Qed.

Lemma merged_twice {A : Type} (old new : option A) :
  merged (merged old new) new = merged old new.
Proof. destruct new; reflexivity. Qed.

(** X6. Sending the same patch again changes nothing but [updatedAt]: on the
    record a patch produced, the patch succeeds again and gives that record
    with the new time. *)
Theorem normalizeStatsPatch_twice (existing : participant) (patch : value)
    (now : jsstring) (next : participant) :
  normalizeStatsPatch existing patch now = Ok next ->
  forall now' : jsstring,
    normalizeStatsPatch next patch now' = Ok (set_updatedAt (VStr now') next).
Proof.
  rewrite normalizeStatsPatch_factors. intros H now'. bind_inv H.
  injection H as <-. rewrite normalizeStatsPatch_factors, E. cbn [bind].
  f_equal. unfold apply_patch, set_updatedAt.
  cbn [id name totalMistakes roundMistakes completedRounds totalFound
       lastRoundMs bestRoundMs currentMiniGame currentMiniGameIndex updatedAt].
  rewrite !merged_twice. reflexivity.
Qed.

(** What [read_patch] found, field by field. *)
Lemma read_patch_Ok (patch : value) (c : patch_content) :
  read_patch patch = Ok c ->
  (exists v s, get patch (js "name") = Ok v /\ cleanName v = Ok s /\
               new_name c = match s with [] => None | _ => Some s end) /\
  read_counter patch (js "totalMistakes") = Ok (new_totalMistakes c) /\
  read_counter patch (js "roundMistakes") = Ok (new_roundMistakes c) /\
  read_counter patch (js "completedRounds") = Ok (new_completedRounds c) /\
  read_counter patch (js "totalFound") = Ok (new_totalFound c) /\
  read_counter patch (js "lastRoundMs") = Ok (new_lastRoundMs c) /\
  read_counter patch (js "bestRoundMs") = Ok (new_bestRoundMs c).
Proof.
  unfold read_patch. intros H. do 12 bind_inv H. injection H as <-.
  cbn [new_name new_totalMistakes new_roundMistakes new_completedRounds
       new_totalFound new_lastRoundMs new_bestRoundMs].
  split; [eauto|]. repeat split; assumption.
Qed.

Lemma read_counter_Ok (patch : value) (f : jsstring) (o : option number) :
  read_counter patch f = Ok o ->
  match o with
  | Some x => counter_ok (Some x) /\ ~ absent patch f
  | None => absent patch f
  end.
Proof.
  unfold read_counter, present, absent. intros H. bind_inv H. rewrite E.
  destruct x; try (injection H as <-; reflexivity);
    (apply bind_Ok in H; destruct H as (m & Hm & H);
     apply bind_Ok in Hm; destruct Hm as (raw & Hraw & Hm);
     injection H as <-; injection Hm as <-;
     split; [apply Math_max_zero_ok; eapply safeNum_finite; eassumption
            | discriminate]).
Qed.

Lemma merged_counter_ok (patch : value) (f : jsstring)
    (old new : option number) :
  read_counter patch f = Ok new ->
  counter_ok old \/ ~ absent patch f ->
  counter_ok (merged old new).
Proof.
  intros H Hor. apply read_counter_Ok in H. destruct new as [x|]; simpl.
  - apply H.
  - destruct Hor as [Hold|Hcarried]; [exact Hold | contradiction].
Qed.

(** X7. After a patch, each of the six counters is a finite number that is at
    least 0 as soon as it was one before or the patch carries it: a patch
    never spoils a counter, and it mends the ones it names. *)
Theorem normalizeStatsPatch_counters (existing : participant) (patch : value)
    (now : jsstring) (next : participant) :
  normalizeStatsPatch existing patch now = Ok next ->
  (counter_ok (totalMistakes existing) \/ ~ absent patch (js "totalMistakes")
     -> counter_ok (totalMistakes next)) /\
  (counter_ok (roundMistakes existing) \/ ~ absent patch (js "roundMistakes")
     -> counter_ok (roundMistakes next)) /\
  (counter_ok (completedRounds existing)
     \/ ~ absent patch (js "completedRounds")
     -> counter_ok (completedRounds next)) /\
  (counter_ok (totalFound existing) \/ ~ absent patch (js "totalFound")
     -> counter_ok (totalFound next)) /\
  (counter_ok (lastRoundMs existing) \/ ~ absent patch (js "lastRoundMs")
     -> counter_ok (lastRoundMs next)) /\
  (counter_ok (bestRoundMs existing) \/ ~ absent patch (js "bestRoundMs")
     -> counter_ok (bestRoundMs next)).
Proof.
  rewrite normalizeStatsPatch_factors. intros H. bind_inv H.
  injection H as <-.
  destruct (read_patch_Ok patch x E) as (_ & H1 & H2 & H3 & H4 & H5 & H6).
  unfold apply_patch.
  cbn [totalMistakes roundMistakes completedRounds totalFound lastRoundMs
       bestRoundMs].
  repeat split; intros Hor; eapply merged_counter_ok; eassumption.
Qed.

(** X8. After a patch the name is the one the record had, or a cleaned text
    that is not empty, has at most 28 code units and does not start with
    white space; a record that had a name still has one. *)
Theorem normalizeStatsPatch_name (existing : participant) (patch : value)
    (now : jsstring) (next : participant) :
  normalizeStatsPatch existing patch now = Ok next ->
  (name next = name existing \/
   exists s : jsstring,
     name next = Some s /\ s <> [] /\ (List.length s <= 28)%nat /\
     (forall c r, s = c :: r -> is_white_space c = false)) /\
  (name existing <> None -> name next <> None).
Proof.
  rewrite normalizeStatsPatch_factors. intros H. bind_inv H.
  injection H as <-.
  destruct (read_patch_Ok patch x E) as ((v & s & _ & Hclean & Hnew) & _).
  unfold apply_patch. cbn [name]. rewrite Hnew.
  destruct (cleanName_bounds v s Hclean) as [Hlen Hhead].
  destruct s as [|c s]; simpl.
  - split; [left; reflexivity | auto].
  - split; [|discriminate]. right. exists (c :: s).
    repeat split; auto. discriminate.
Qed.

End Merge.

(** ** The scoreboard is in order *)

Lemma Qclt_minus_pos (x y : Qc) : (x < y)%Qc -> (Q2Qc 0 < y - x)%Qc.
Proof. intros H. apply Qclt_minus_iff in H. exact H. Qed.

Lemma Qclt_of_minus_pos (x y : Qc) : (Q2Qc 0 < y - x)%Qc -> (x < y)%Qc.
Proof. intros H. apply Qclt_minus_iff. exact H. Qed.

Lemma Qclt_asym (x y : Qc) : (x < y)%Qc -> ~ (y < x)%Qc.
Proof. intros H H'. exact (Qlt_irrefl _ (Qlt_trans _ _ _ H H')). Qed.

Section Order.
Context {B : Builtins}.

Lemma score_positive_not_below (a b : participant) :
  positive (score a b) = true -> not_below b a.
Proof.
  intros H. unfold not_below.
  destruct (counted (completedRounds a) ?= counted (completedRounds b))%Qc
    eqn:Er.
  - apply Qceq_alt in Er. right. split; [congruence|].
    destruct (counted (totalMistakes a) ?= counted (totalMistakes b))%Qc
      eqn:Em.
    + apply Qceq_alt in Em. rewrite Em. apply Qcle_refl.
    + apply Qclt_alt in Em.
      rewrite score_by_mistakes in H by (auto using Qclt_neq).
      apply positive_Fin, Qclt_of_minus_pos in H.
      destruct (Qclt_asym _ _ Em H).
    + apply Qcgt_alt in Em. apply Qclt_le_weak. exact Em.
  - apply Qclt_alt in Er. left. exact Er.
  - apply Qcgt_alt in Er.
    rewrite score_by_rounds in H
      by (intros Heq; symmetry in Heq; revert Heq; apply Qclt_neq, Er).
    apply positive_Fin, Qclt_of_minus_pos in H.
    destruct (Qclt_asym _ _ Er H).
Qed.

Lemma score_not_positive_not_below (a b : participant) :
  positive (score a b) = false -> not_below a b.
Proof.
  intros H. unfold not_below.
  destruct (counted (completedRounds a) ?= counted (completedRounds b))%Qc
    eqn:Er.
  - apply Qceq_alt in Er. right. split; [exact Er|].
    destruct (counted (totalMistakes a) ?= counted (totalMistakes b))%Qc
      eqn:Em.
    + apply Qceq_alt in Em. rewrite Em. apply Qcle_refl.
    + apply Qclt_alt in Em. apply Qclt_le_weak. exact Em.
    + apply Qcgt_alt in Em.
      rewrite score_by_mistakes in H
        by (try exact Er;
            intros Heq; symmetry in Heq; revert Heq; apply Qclt_neq, Em).
      apply Qclt_minus_pos, positive_Fin in Em. congruence.
  - apply Qclt_alt in Er.
    rewrite score_by_rounds in H by (apply Qclt_neq, Er).
    apply Qclt_minus_pos, positive_Fin in Er. congruence.
  - apply Qcgt_alt in Er. left. exact Er.
Qed.

Lemma not_below_trans (a b c : participant) :
  not_below a b -> not_below b c -> not_below a c.
Proof.
  unfold not_below. intros [Hab|[Hab Hab']] [Hbc|[Hbc Hbc']].
  - left. eapply Qclt_trans; eassumption.
  - left. rewrite <- Hbc. exact Hab.
  - left. rewrite Hab. exact Hbc.
  - right. split; [congruence|]. eapply Qcle_trans; eassumption.
Qed.

Lemma insert_by_ranked (x : participant) (l : list participant) :
  StronglySorted not_below l ->
  StronglySorted not_below (insert_by score x l).
Proof.
  induction 1 as [|y rest Hrest IH Hy]; simpl.
  - repeat constructor.
  - destruct (positive (score x y)) eqn:E.
    + constructor; [exact IH|].
      apply Forall_insert_by; [|exact Hy].
      apply score_positive_not_below, E.
    + apply score_not_positive_not_below in E.
      constructor; [constructor; assumption|].
      constructor; [exact E|].
      eapply Forall_impl; [|exact Hy].
      intros z Hz. eapply not_below_trans; eassumption.
Qed.

Lemma sort_by_ranked (l : list participant) :
  StronglySorted not_below (sort_by score l).
Proof.
  induction l as [|x rest IH]; simpl; [constructor|].
  apply insert_by_ranked, IH.
Qed.

(** X9. [participantsList] returns for every registry: its list holds the
    rows of the registry, each as often as the registry does, and every row
    of the list stands before all rows with fewer completed rounds and before
    all rows with as many rounds and more mistakes (a missing or non-finite
    counter counting as 0). *)
Theorem participantsList_is_ranked (st : state) :
  exists rows : list participant,
    participantsList st = Ok rows /\
    Permutation rows (map snd (participants st)) /\
    StronglySorted not_below rows /\
    List.length rows = List.length (participants st).
Proof.
  exists (ranked st). split; [apply participantsList_total|].
  assert (Hperm : Permutation (ranked st) (map snd (participants st)))
    by apply sort_by_Permutation.
  split; [exact Hperm|]. split; [apply sort_by_ranked|].
  rewrite (Permutation_length Hperm). apply length_map.
Qed.

End Order.

(** ** Request bodies *)

Section Body.
Context {B : Builtins}.
Variable JSON_parse : jsstring -> option value.

Lemma receive_settle (chunks : list jsstring) (fin : stream_end) :
  forall raw : jsstring,
    (N.of_nat (List.length raw) <= 1000000)%N ->
    receive JSON_parse raw chunks fin = settle JSON_parse (raw ++ List.concat chunks) fin.
Proof.
  induction chunks as [|chunk rest IH]; intros raw Hraw; cbn [receive List.concat].
  - rewrite app_nil_r. unfold settle.
    replace (1000000 <? N.of_nat (List.length raw))%N with false
      by (symmetry; apply N.ltb_ge; exact Hraw).
    reflexivity.
  - destruct (1000000 <? N.of_nat (List.length (raw ++ chunk)))%N eqn:E.
    + unfold settle.
      replace (1000000 <?
               N.of_nat (List.length (raw ++ chunk ++ List.concat rest)))%N
        with true; [reflexivity|].
      symmetry. apply N.ltb_lt. apply N.ltb_lt in E.
      rewrite !length_app in *. lia.
    + rewrite IH by (apply N.ltb_ge; exact E).
      rewrite <- app_assoc. reflexivity.
Qed.

(** X10. [readBody] settles by [raw], the texts of its chunks put together
    (each chunk decoded on its own): the check of the limit after every chunk
    comes to one check of the whole, so that it rejects with
    [payload_too_large] exactly when [raw] has more than 1,000,000 code
    units, also when the stream then fails or the text is not JSON; below
    the limit an error of the stream rejects, an empty [raw] resolves to the
    empty object, and any other to what [JSON.parse] makes of it, or rejects
    with [invalid_json]. *)
Theorem readBody_reads_the_whole_text (chunks : list jsstring)
    (fin : stream_end) :
  readBody JSON_parse chunks fin = settle JSON_parse (List.concat chunks) fin /\
  (readBody JSON_parse chunks fin = Rejected payload_too_large <->
   (1000000 < N.of_nat (List.length (List.concat chunks)))%N).
Proof.
  assert (E : readBody JSON_parse chunks fin
              = settle JSON_parse (List.concat chunks) fin).
  { unfold readBody. rewrite receive_settle by (simpl; lia). reflexivity. }
  split; [exact E|]. rewrite E. unfold settle.
  destruct (1000000 <? N.of_nat (List.length (List.concat chunks)))%N eqn:El.
  - apply N.ltb_lt in El. tauto.
  - apply N.ltb_ge in El. split; [|lia].
    destruct fin; [|discriminate].
    destruct (List.concat chunks); [discriminate|].
    destruct (JSON_parse _); discriminate.
Qed.

(** ** Requests *)

Lemma persist_and_reply_inv (st : state) (now : jsstring)
    (answer : list participant -> reply) (s : state) (r : reply)
    (w : list effect) :
  (forall l, listed (answer l) = Some l) ->
  persist_and_reply st now answer = Some (s, r, w) ->
  s = st /\
  ((listed r = Some (ranked st) /\
    w = [data_written st now; table_written st]) \/
   (listed r = None /\ w = [data_written st now] /\ ~ renderable st)).
Proof.
  intros Hanswer. unfold persist_and_reply, persistState, buildScoreboardHtml.
  rewrite participantsList_total. cbn [bind].
  destruct (render_rows (sort_by score (map snd (participants st))))
    as [[]|e] eqn:E; cbn [bind]; unfold caught; intros H;
    injection H as <- <- <-; (split; [reflexivity|]).
  - left. split; [apply Hanswer | reflexivity].
  - right. split; [reflexivity|]. split; [reflexivity|].
    intros Hst. rewrite render_rows_total in E
      by (apply Forall_sort_by, Hst). discriminate.
Qed.

(** [persistState] and the reply after an assignment: either both files are
    written and the reply carries the ranked list, or the table could not be
    rendered and the reply is the 500 of the [catch]. *)
Lemma persist_and_reply_cases (st : state) (now : jsstring)
    (answer : list participant -> reply) :
  (persist_and_reply st now answer
   = Some (st, answer (ranked st),
           [data_written st now; table_written st]) /\ renderable st) \/
  (exists e,
     persist_and_reply st now answer
     = Some (st, Failed 500 (thrown e), [data_written st now]) /\
     ~ renderable st).
Proof.
  unfold persist_and_reply, persistState, buildScoreboardHtml.
  rewrite participantsList_total. cbn [bind].
  destruct (render_rows (sort_by score (map snd (participants st))))
    as [[]|e] eqn:E; cbn [bind]; unfold caught.
  - left. split; [reflexivity|].
    apply (Forall_sort_by_inv _ score), render_rows_Ok, E.
  - right. exists e. split; [reflexivity|]. intros Hst.
    rewrite render_rows_total in E by (apply Forall_sort_by, Hst).
    discriminate.
Qed.


Lemma join_effect (st : state) (body : value) (new_id now now' : jsstring)
    (st' : state) (r : reply) (w : list effect) :
  join st body new_id now now' = Some (st', r, w) ->
  effect_of_request st st' new_id now now' (listed r) w.
Proof.
  unfold join, effect_of_request.
  destruct (v <- get body (js "name") ;; cleanName v) as [[|c nm]|e] eqn:En.
  - intros H. injection H as <- <- <-. left. auto.
  - cbv zeta.
    destruct (participants_set st new_id _) as [st1|] eqn:Es; [|discriminate].
    intros H. apply persist_and_reply_inv in H; [|reflexivity].
    destruct H as [-> Hshape]. right. split; [|exact Hshape].
    eexists _, _. split; [|exact Es].
    left. split; [reflexivity|]. bind_inv En.
    eexists _, _. split; [exact En|]. split; [discriminate | reflexivity].
  - unfold caught. intros H. injection H as <- <- <-. left. auto.
Qed.

Lemma update_effect (st : state) (body : value) (now now' : jsstring)
    (st' : state) (r : reply) (w : list effect) :
  update st body now now' = Some (st', r, w) ->
  forall new_id : jsstring,
    effect_of_request st st' new_id now now' (listed r) w.
Proof.
  unfold update, effect_of_request.
  destruct (v <- get body (js "id") ;; ToString (or_else v (VStr [])))
    as [s|e]; unfold caught;
    [|intros H ?; injection H as <- <- <-; left; auto].
  cbv zeta. destruct (trim s) as [|c k] eqn:Ek;
    [intros H ?; injection H as <- <- <-; left; auto|].
  destruct (is_object (participants_get st (c :: k))) eqn:Eo; cbn [negb];
    [|intros H ?; injection H as <- <- <-; left; auto].
  match goal with
  | |- context [match ?x with Ok _ => _ | Throw _ => _ end] =>
      destruct x as [next|e] eqn:En
  end; [|intros H ?; injection H as <- <- <-; left; auto].
  destruct (participants_set st (c :: k) next) as [st1|] eqn:Es;
    [|discriminate].
  intros H new_id. apply persist_and_reply_inv in H; [|reflexivity].
  destruct H as [-> Hshape]. right. split; [|exact Hshape].
  eexists _, _. split; [|exact Es].
  right. split; [discriminate|]. split; [exact Eo|].
  bind_inv En. eauto.
Qed.






(** What a request did: a GET of the scoreboard answers the ranked list and
    does nothing else; any other request has the effect of its branch. *)
Lemma handleApi_effect (st : state) (req : request)
    (new_id now now' : jsstring) (st' : state) (a : answer)
    (w : list effect) :
  handleApi JSON_parse st req new_id now now' = Some (st', a, w) ->
  (a = Listed now (ranked st) /\ st' = st /\ w = []) \/
  ((forall t l, a <> Listed t l) /\
   effect_of_request st st' new_id now now' (answered_list a) w).
Proof.
  assert (Hnone : forall a0, answered_list a0 = None ->
            Some (st, a0, @nil effect) = Some (st', a, w) ->
            (a = Listed now (ranked st) /\ st' = st /\ w = []) \/
            ((forall t l, a <> Listed t l) /\
             effect_of_request st st' new_id now now' (answered_list a) w)).
  { intros a0 Ha0 H. injection H as <- <- <-. right. split.
    - intros t l ->. discriminate.
    - left. auto. }
  unfold handleApi, refused, answered.
  destruct (method req).
  - destruct (str_eqb _ _); [|apply Hnone; reflexivity].
    rewrite participantsList_total.
    intros H. injection H as <- <- <-. left. auto.
  - destruct (str_eqb _ _).
    + destruct (readBody _ _ _); [|apply Hnone; reflexivity].
      destruct (join _ _ _ _ _) as [[[s r] w0]|] eqn:E; [|discriminate].
      intros H. injection H as <- <- <-. right. split; [discriminate|].
      apply (join_effect _ _ _ _ _ _ _ _ E).
    + destruct (str_eqb _ _); [|apply Hnone; reflexivity].
      destruct (readBody _ _ _); [|apply Hnone; reflexivity].
      destruct (update _ _ _ _) as [[[s r] w0]|] eqn:E; [|discriminate].
      intros H. injection H as <- <- <-. right. split; [discriminate|].
      apply (update_effect _ _ _ _ _ _ _ E).
  - apply Hnone. reflexivity.
Qed.

Lemma participants_set_inv (st : state) (k : jsstring) (p : participant)
    (st' : state) :
  participants_set st k p = Some st' ->
  participants_get st' k = Own p /\
  (forall k0, k0 <> k -> participants_get st' k0 = participants_get st k0) /\
  (forall k0 p0, participants_get st k0 = Own p0 ->
                 exists p1, participants_get st' k0 = Own p1) /\
  (List.length (participants st) <= List.length (participants st')
   <= S (List.length (participants st)))%nat.
Proof.
  intros H.
  assert (Hcases :
    (own_record k (participants st) <> None /\
     participants st' = replace_own k p (participants st)) \/
    (own_record k (participants st) = None /\
     participants st' = create_own k p (participants st))).
  { unfold participants_set in H.
    destruct (own_record k (participants st)) eqn:E.
    - injection H as <-. left. split; [discriminate | reflexivity].
    - destruct (str_eqb k (js "__proto__")); [discriminate|].
      injection H as <-. right. split; reflexivity. }
  assert (Hsame : participants_get st' k = Own p).
  { unfold participants_get. destruct Hcases as [[Hown ->]|[Hnone ->]].
    - rewrite own_record_replace_own_same by exact Hown. reflexivity.
    - rewrite own_record_create_own_same by exact Hnone. reflexivity. }
  assert (Hother : forall k0, k0 <> k ->
            participants_get st' k0 = participants_get st k0).
  { intros k0 Hne. unfold participants_get.
    destruct Hcases as [[_ ->]|[_ ->]].
    - rewrite own_record_replace_own_other by exact Hne. reflexivity.
    - rewrite own_record_create_own_other by exact Hne. reflexivity. }
  split; [exact Hsame|]. split; [exact Hother|]. split.
  - intros k0 p0 Hk0. destruct (str_eq_dec k0 k) as [->|Hne].
    + eauto.
    + rewrite Hother by exact Hne. eauto.
  - destruct Hcases as [[_ ->]|[_ ->]].
    + rewrite length_replace_own. lia.
    + rewrite length_create_own. lia.
Qed.





End Body.

(** ** Well-formed rows *)

Lemma Forall_pairs_replace_own (P : jsstring * participant -> Prop)
    (k : jsstring) (p : participant) (l : list (jsstring * participant)) :
  P (k, p) -> Forall P l -> Forall P (replace_own k p l).
Proof.
  intros Hp. induction 1 as [|[k' p'] rest Hx Hrest IH]; simpl;
    [constructor|].
  destruct (str_eq_dec k k'); constructor; auto.
Qed.

Lemma Forall_pairs_create_own (P : jsstring * participant -> Prop)
    (k : jsstring) (p : participant) (l : list (jsstring * participant)) :
  P (k, p) -> Forall P l -> Forall P (create_own k p l).
Proof.
  intros Hp. induction 1 as [|[k' p'] rest Hx Hrest IH]; simpl.
  - repeat constructor. exact Hp.
  - destruct (created_before k k'); repeat constructor; auto.
Qed.

Lemma Forall_participants_set (P : jsstring * participant -> Prop)
    (st : state) (k : jsstring) (p : participant) (st' : state) :
  P (k, p) -> Forall P (participants st) ->
  participants_set st k p = Some st' -> Forall P (participants st').
Proof.
  unfold participants_set. intros Hp Hst.
  destruct (own_record k (participants st)).
  - intros H. injection H as <-. apply Forall_pairs_replace_own; assumption.
  - destruct (str_eqb k (js "__proto__")); [discriminate|].
    intros H. injection H as <-. apply Forall_pairs_create_own; assumption.
Qed.

Lemma own_record_In (k : jsstring) (p : participant)
    (l : list (jsstring * participant)) :
  own_record k l = Some p -> In (k, p) l.
Proof.
  induction l as [|[k' p'] rest IH]; simpl; [discriminate|].
  destruct (str_eq_dec k k') as [->|Hne].
  - intros H. injection H as ->. left. reflexivity.
  - intros H. right. exact (IH H).
Qed.

Section Soundness.
Context {B : Builtins}.
Variable JSON_parse : jsstring -> option value.

Lemma finite_prop_safeNum (v : value) (n : number) :
  safeNum v zero = Ok n -> finite_prop (Some n).
Proof.
  intros H. exists n. split; [reflexivity|].
  eapply safeNum_finite; eassumption.
Qed.

(** What one entry of the data file does to the registry. *)
Lemma load_row_inv (st : state) (row : value) (now : jsstring)
    (r : option state) :
  load_row st row now = Ok r ->
  r = Some st \/
  exists k p, k <> [] /\ row_ok k p /\ r = participants_set st k p.
Proof.
  unfold load_row. intros H. do 4 bind_inv H.
  destruct (trim x0) as [|c k] eqn:Ek; [injection H as <-; left; reflexivity|].
  destruct x2 as [|d nm] eqn:En; [injection H as <-; left; reflexivity|].
  do 17 bind_inv H. injection H as <-. right.
  eexists _, _. split; [|split; [|reflexivity]]; [discriminate|].
  unfold row_ok.
  cbn [id name totalMistakes roundMistakes completedRounds totalFound
       lastRoundMs bestRoundMs currentMiniGame currentMiniGameIndex].
  split; [reflexivity|]. split.
  - eexists. split; [reflexivity|]. split; [discriminate|].
    eapply cleanName_bounds; eassumption.
  - repeat match goal with
    | |- _ /\ _ => split
    | |- finite_prop _ => eapply finite_prop_safeNum; eassumption
    end.
    eexists. reflexivity.
Qed.

Lemma load_rows_loaded (rows : list value) :
  forall (st : state) (now : nat -> jsstring) (st' : state),
    loaded st -> load_rows st rows now = Some st' -> loaded st'.
Proof.
  induction rows as [|row rest IH]; intros st now st' Hst; cbn [load_rows].
  - intros H. injection H as <-. exact Hst.
  - destruct (load_row st row (now 0%nat)) as [[st1|]|e] eqn:E;
      [|discriminate|intros H; injection H as <-; exact Hst].
    apply IH. apply load_row_inv in E.
    destruct E as [E|(k & p & Hk & Hp & E)].
    + injection E as <-. exact Hst.
    + symmetry in E.
      exact (Forall_participants_set _ _ _ _ _ (conj Hk Hp) Hst E).
Qed.

(** X14. Whatever the data file holds, the registry [loadState] builds from
    it has well-formed rows only: each is stored under its own id, which is
    not empty, has a name of 1 to 28 code units, and numbers that are all
    finite. *)
Theorem loadState_loads_well_formed_rows (file : data_file)
    (now : nat -> jsstring) (st : state) :
  loadState initial_state file now = Some st ->
  Forall (fun kp : jsstring * participant =>
            fst kp <> [] /\ id (snd kp) = Some (fst kp) /\
            (exists nm, name (snd kp) = Some nm /\ nm <> [] /\
                        (List.length nm <= 28)%nat) /\
            (forall counter,
               In counter [totalMistakes; roundMistakes; completedRounds;
                           totalFound; lastRoundMs; bestRoundMs;
                           currentMiniGameIndex] ->
               exists n, counter (snd kp) = Some n /\ isFinite n = true))
         (participants st).
Proof.
  intros H.
  assert (Hloaded : loaded st).
  { assert (H0 : loaded initial_state) by constructor.
    unfold loadState in H. destruct file as [| | |parsed];
      try (injection H as <-; exact H0).
    destruct (get parsed (js "participants")) as [v|e];
      [|injection H as <-; exact H0].
    destruct v; eapply load_rows_loaded; eassumption. }
  eapply Forall_impl; [|exact Hloaded].
  intros [k p] (Hk & Hid & Hname & H1 & H2 & H3 & H4 & H5 & H6 & _ & H7).
  cbn [fst snd] in *. split; [exact Hk|]. split; [exact Hid|].
  split; [exact Hname|].
  intros counter Hin. simpl in Hin.
  repeat (destruct Hin as [<-|Hin]; [assumption|]). destruct Hin.
Qed.








End Soundness.

(** ** The start of the process and bodies that are refused *)

Section Edges.
Context {B : Builtins}.
Variable JSON_parse : jsstring -> option value.

Lemma persistState_inv (st : state) (now : jsstring) (w : list effect)
    (r : result unit) :
  persistState st now = (w, r) ->
  (r = Ok tt /\ w = [data_written st now; table_written st] /\
   renderable st) \/
  ((exists e, r = Throw e) /\ w = [data_written st now] /\ ~ renderable st).
Proof.
  intros H.
  destruct (render_rows (ranked st)) as [[]|e] eqn:E.
  - assert (Hst : renderable st)
      by (apply (Forall_sort_by_inv _ score), render_rows_Ok, E).
    rewrite persistState_total in H by exact Hst.
    injection H as <- <-. left. auto.
  - right. unfold persistState, buildScoreboardHtml in H.
    rewrite participantsList_total in H. cbn [bind] in H.
    unfold ranked in E. rewrite E in H. cbn [bind] in H.
    injection H as <- <-. split; [eauto|]. split; [reflexivity|].
    intros Hst.
    rewrite render_rows_total in E by (apply Forall_sort_by, Hst).
    discriminate.
Qed.

(** X16. The start of the process rewrites the data file before anything
    else, with the ranked list of the rows [loadState] took in, so entries
    it did not take in are no longer in the file; the only thing that can
    then fail is the table, on a row it cannot render.  When the file is
    missing, blank or not JSON, the registry is empty and both files are
    written with the empty list. *)
Theorem startup_rewrites_the_data_file (file : data_file)
    (now : nat -> jsstring) (now' : jsstring) (st : state)
    (w : list effect) (r : result unit) :
  startup file now now' = Some (st, (w, r)) ->
  loadState initial_state file now = Some st /\
  ((r = Ok tt /\ w = [data_written st now'; table_written st] /\
    renderable st) \/
   ((exists e, r = Throw e) /\ w = [data_written st now'] /\
    ~ renderable st)) /\
  (match file with Parsed _ => False | _ => True end ->
   st = initial_state /\ r = Ok tt /\
   w = [ WriteData {| snapshot_updatedAt := now';
                      snapshot_participants := [] |};
         WriteTable [] ]).
Proof.
  unfold startup. intros H.
  destruct (loadState initial_state file now) as [st0|] eqn:E;
    [|discriminate].
  injection H as -> H. split; [reflexivity|].
  split; [exact (persistState_inv _ _ _ _ H)|].
  intros Hfile.
  assert (st = initial_state)
    by (destruct file; try contradiction; injection E as <-; reflexivity).
  subst st. rewrite persistState_total in H by constructor.
  injection H as <- <-. auto.
Qed.

Lemma readBody_settle (chunks : list jsstring) (fin : stream_end) :
  readBody JSON_parse chunks fin = settle JSON_parse (List.concat chunks) fin.
Proof.
  unfold readBody. rewrite receive_settle by (simpl; lia). reflexivity.
Qed.

Lemma handleApi_rejected (st : state) (path : jsstring)
    (parts : list jsstring) (fin : stream_end) (new_id now now' : jsstring)
    (e : body_error) :
  path = js "/group-api/join" \/ path = js "/group-api/update" ->
  readBody JSON_parse parts fin = Rejected e ->
  handleApi JSON_parse st
    {| method := POST; pathname := path; chunks := parts; stream := fin |}
    new_id now now'
  = Some (st, Refused (match e with invalid_json => 400 | _ => 500 end)%N e, []).
Proof.
  intros Hpath He. unfold handleApi. cbn [method pathname chunks stream].
  rewrite He. destruct Hpath as [-> | ->].
  - replace (str_eqb (js "/group-api/join") (js "/group-api/join"))
      with true by (vm_compute; reflexivity).
    reflexivity.
  - replace (str_eqb (js "/group-api/update") (js "/group-api/join"))
      with false by (vm_compute; reflexivity).
    replace (str_eqb (js "/group-api/update") (js "/group-api/update"))
      with true by (vm_compute; reflexivity).
    reflexivity.
Qed.

(** X17. A join or an update whose body cannot be read changes nothing and
    writes nothing: a body of more than 1,000,000 code units is answered
    500 [payload_too_large], a stream that fails below the limit 500, and a
    text that is not JSON 400 [invalid_json]. *)
Theorem handleApi_refuses_a_bad_body (st : state) (path : jsstring)
    (parts : list jsstring) (fin : stream_end)
    (new_id now now' : jsstring) :
  path = js "/group-api/join" \/ path = js "/group-api/update" ->
  let text := List.concat parts in
  let asked :=
    handleApi JSON_parse st
      {| method := POST; pathname := path; chunks := parts; stream := fin |}
      new_id now now' in
  ((1000000 < N.of_nat (List.length text))%N ->
   asked = Some (st, Refused 500 payload_too_large, [])) /\
  ((N.of_nat (List.length text) <= 1000000)%N -> fin = errored ->
   asked = Some (st, Refused 500 stream_error, [])) /\
  ((N.of_nat (List.length text) <= 1000000)%N -> fin = ended ->
   text <> [] -> JSON_parse text = None ->
   asked = Some (st, Refused 400 invalid_json, [])).
Proof.
  intros Hpath text asked. subst asked.
  split; [|split].
  - intros Hlarge. apply (handleApi_rejected _ _ _ _ _ _ _ payload_too_large);
      [exact Hpath|].
    rewrite readBody_settle. unfold settle. fold text.
    replace (1000000 <? N.of_nat (List.length text))%N with true
      by (symmetry; apply N.ltb_lt; exact Hlarge).
    reflexivity.
  - intros Hsmall ->. apply (handleApi_rejected _ _ _ _ _ _ _ stream_error);
      [exact Hpath|].
    rewrite readBody_settle. unfold settle. fold text.
    replace (1000000 <? N.of_nat (List.length text))%N with false
      by (symmetry; apply N.ltb_ge; exact Hsmall).
    reflexivity.
  - intros Hsmall -> Htext Hparse.
    apply (handleApi_rejected _ _ _ _ _ _ _ invalid_json); [exact Hpath|].
    rewrite readBody_settle. unfold settle. fold text.
    replace (1000000 <? N.of_nat (List.length text))%N with false
      by (symmetry; apply N.ltb_ge; exact Hsmall).
    destruct text; [congruence|]. rewrite Hparse. reflexivity.
Qed.

(** X18. A request without a body is read as the empty object: a join is
    then answered 400 [name_required] and an update 404
    [participant_not_found], the registry is unchanged and nothing is
    written. *)
Theorem handleApi_on_an_empty_body (st : state) (parts : list jsstring)
    (new_id now now' : jsstring) :
  List.concat parts = [] ->
  handleApi JSON_parse st
    {| method := POST; pathname := js "/group-api/join";
       chunks := parts; stream := ended |} new_id now now'
  = Some (st, Answered (Failed 400 name_required), []) /\
  handleApi JSON_parse st
    {| method := POST; pathname := js "/group-api/update";
       chunks := parts; stream := ended |} new_id now now'
  = Some (st, Answered (Failed 404 participant_not_found), []).
Proof.
  intros Hempty.
  assert (Hbody : readBody JSON_parse parts ended = Resolved (VObj []))
    by (rewrite readBody_settle, Hempty; reflexivity).
  unfold handleApi. cbn [method pathname chunks stream].
  rewrite Hbody.
  replace (str_eqb (js "/group-api/join") (js "/group-api/join"))
    with true by (vm_compute; reflexivity).
  replace (str_eqb (js "/group-api/update") (js "/group-api/join"))
    with false by (vm_compute; reflexivity).
  replace (str_eqb (js "/group-api/update") (js "/group-api/update"))
    with true by (vm_compute; reflexivity).
  split.
  - unfold join.
    replace (get (VObj []) (js "name")) with (Ok VUndefined) by reflexivity.
    cbn [bind]. rewrite cleanName_undefined. reflexivity.
  - unfold update.
    replace (get (VObj []) (js "id")) with (Ok VUndefined) by reflexivity.
    cbn [bind]. reflexivity.
Qed.

End Edges.

(** ** An update after a join *)

Section JoinThenUpdate.
Context {B : Builtins}.

Lemma ranked_In (st : state) (k : jsstring) (p : participant) :
  participants_get st k = Own p -> In p (ranked st).
Proof.
  unfold participants_get. intros H.
  destruct (own_record k (participants st)) as [q|] eqn:E;
    [|destruct (existsb _ _); discriminate].
  injection H as ->. apply own_record_In in E.
  eapply Permutation_in.
  - apply Permutation_sym, sort_by_Permutation.
  - change p with (snd (k, p)). apply in_map, E.
Qed.

(** X19. A participant who joined can be updated: the row of the join is in
    the list of its reply and is owned under the id of the reply, and an
    update that names this id is never answered [participant_not_found]; it
    adds no row, and when it succeeds the row it returns still has that id,
    is the one the registry owns under it and is in the list of the
    reply. *)
Theorem update_after_join (st : state) (body : value)
    (new_id now now' : jsstring) (st1 : state) (p : participant)
    (l : list participant) (w : list effect) (body2 : value)
    (now2 now2' : jsstring) :
  join st body new_id now now' = Some (st1, Joined new_id p l, w) ->
  new_id <> [] -> trim new_id = new_id ->
  get body2 (js "id") = Ok (VStr new_id) ->
  In p l /\ participants_get st1 new_id = Own p /\
  exists st2 r w2,
    update st1 body2 now2 now2' = Some (st2, r, w2) /\
    r <> Failed 404 participant_not_found /\
    List.length (participants st2) = List.length (participants st1) /\
    (forall next l2, r = Updated next l2 ->
       id next = Some new_id /\ participants_get st2 new_id = Own next /\
       In next l2).
Proof.
  intros Hjoin Hne Htrim Hget.
  assert (Hj : participants_get st1 new_id = Own p /\ l = ranked st1 /\
               id p = Some new_id).
  { unfold join in Hjoin.
    destruct (v <- get body (js "name") ;; cleanName v) as [[|c nm]|e];
      try discriminate.
    cbv zeta in Hjoin.
    destruct (participants_set st new_id _) as [s|] eqn:Es; [|discriminate].
    match type of Hjoin with
    | context [persist_and_reply ?s0 ?n0 ?a0] =>
        destruct (persist_and_reply_cases s0 n0 a0)
          as [[Hp _]|[e [Hp _]]]
    end; rewrite Hp in Hjoin; [|discriminate].
    injection Hjoin as <- <- <- _.
    destruct (participants_set_inv _ _ _ _ Es) as (Hown & _).
    split; [exact Hown|]. split; reflexivity. }
  destruct Hj as (Hown & -> & Hid).
  split; [exact (ranked_In _ _ _ Hown)|]. split; [exact Hown|].
  unfold update. rewrite Hget. cbn [bind].
  destruct new_id as [|c k]; [congruence|].
  replace (ToString (or_else (VStr (c :: k)) (VStr []))) with (Ok (c :: k))
    by reflexivity.
  cbv zeta. rewrite Htrim, Hown. cbn [is_object negb spread].
  match goal with
  | |- context [match ?x with Ok _ => _ | Throw _ => _ end] =>
      destruct x as [next|e] eqn:En
  end.
  - destruct (participants_set_own st1 (c :: k) p next Hown)
      as (st2 & Hset & _ & Hnext & _ & Hlen).
    rewrite Hset.
    assert (Hidnext : id next = Some (c :: k)).
    { bind_inv En. rewrite normalizeStatsPatch_factors in En. bind_inv En.
      injection En as <-. exact Hid. }
    destruct (persist_and_reply_cases st2 now2' (Updated next))
      as [[Hp _]|[e [Hp _]]]; rewrite Hp;
      eexists _, _, _; (split; [reflexivity|]);
      (split; [discriminate|]); (split; [exact Hlen|]);
      intros next' l2 Hr; [|discriminate].
    injection Hr as <- <-.
    split; [exact Hidnext|]. split; [exact Hnext|].
    exact (ranked_In _ _ _ Hnext).
  - unfold caught. eexists _, _, _. split; [reflexivity|].
    split; [discriminate|]. split; [reflexivity|]. discriminate.
Qed.

End JoinThenUpdate.

(** ** The scoreboard that is served *)

Section Served.
Context {B : Builtins}.
Variable JSON_parse : jsstring -> option value.

(** X20. The scoreboard that is served is the one that was stored: after a
    request that wrote the data file, a GET of the scoreboard answers with
    exactly the list of that file, and it changes nothing and writes
    nothing. *)
Theorem scoreboard_serves_what_was_persisted (st : state) (req : request)
    (new_id now now' : jsstring) (st' : state) (a : answer)
    (w : list effect) (payload : snapshot) :
  handleApi JSON_parse st req new_id now now' = Some (st', a, w) ->
  In (WriteData payload) w ->
  forall (parts : list jsstring) (fin : stream_end)
         (new_id2 now2 now2' : jsstring),
    handleApi JSON_parse st'
      {| method := GET; pathname := js "/group-api/scoreboard";
         chunks := parts; stream := fin |} new_id2 now2 now2'
    = Some (st', Listed now2 (snapshot_participants payload), []).
Proof.
  intros H Hin parts fin new_id2 now2 now2'.
  assert (Hpayload : snapshot_participants payload = ranked st').
  { apply handleApi_effect in H.
    destruct H as [(_ & _ & ->)
                  |[_ [(_ & -> & _)|[_ [(_ & ->)|(_ & -> & _)]]]]];
      simpl in Hin; [contradiction|contradiction| |].
    - destruct Hin as [Hin|[Hin|[]]]; [|discriminate].
      injection Hin as <-. reflexivity.
    - destruct Hin as [Hin|[]]. injection Hin as <-. reflexivity. }
  unfold handleApi. cbn [method pathname].
  replace (str_eqb (js "/group-api/scoreboard") (js "/group-api/scoreboard"))
    with true by (vm_compute; reflexivity).
  rewrite participantsList_total, Hpayload. reflexivity.
Qed.

End Served.

(** ** Examples *)

(** A name with spaces around it. *)
Lemma cleanName_is_bounded_and_starts_with_text_witness :
  @cleanName Sample.engine (VStr (js "  Dana  ")) = Ok (js "Dana") /\
  (List.length (js "Dana") <= 28)%nat.
Proof.
  assert (H : @cleanName Sample.engine (VStr (js "  Dana  ")) = Ok (js "Dana"))
    by (vm_compute; reflexivity).
  split; [exact H|].
  exact (proj1 (cleanName_is_bounded_and_starts_with_text _ _ H)).
Defined.

(** The name of 33 code units whose 28th is a space: the first pass leaves
    the space at the end, the second removes it. *)
Lemma cleanName_settles_after_a_second_pass_witness :
  let s := js "The Incredible Team Alpha-1 " in
  @cleanName Sample.engine (VStr (js Sample.long_name)) = Ok s /\
  @cleanName Sample.engine (VStr s) = Ok (trim s) /\
  trim s = js "The Incredible Team Alpha-1".
Proof.
  intros s.
  assert (H : @cleanName Sample.engine (VStr (js Sample.long_name)) = Ok s)
    by (vm_compute; reflexivity).
  split; [exact H|]. split; [|vm_compute; reflexivity].
  exact (proj1 (cleanName_settles_after_a_second_pass _ _ H)).
Defined.

Lemma escapeHtml_leaves_no_markup_witness :
  @escapeHtml Sample.engine (VStr (js "<b>")) = Ok (js "&lt;b&gt;") /\
  Forall (fun c => is_markup c = false) (js "&lt;b&gt;").
Proof.
  assert (H : @escapeHtml Sample.engine (VStr (js "<b>"))
              = Ok (js "&lt;b&gt;")) by (vm_compute; reflexivity).
  split; [exact H|]. exact (escapeHtml_leaves_no_markup _ _ H).
Defined.

Lemma escapeHtml_can_be_read_back_witness :
  @escapeHtml Sample.engine (VStr (js "A&B")) = Ok (js "A&amp;B") /\
  @ToString Sample.engine (VStr (js "A&B"))
  = Ok (unescapeHtml (js "A&amp;B")).
Proof.
  assert (H : @escapeHtml Sample.engine (VStr (js "A&B"))
              = Ok (js "A&amp;B")) by (vm_compute; reflexivity).
  split; [exact H|]. exact (proj1 (escapeHtml_can_be_read_back _ _ H)).
Defined.

(** The patch [{completedRounds: 3}], sent twice. *)
Lemma normalizeStatsPatch_twice_witness :
  let existing := Sample.row "p1" "Dana" 2 5 in
  let patch := VObj [(js "completedRounds", VNum (of_Z 3))] in
  let next := set_updatedAt (VStr Sample.t2) (Sample.row "p1" "Dana" 3 5) in
  @normalizeStatsPatch Sample.engine existing patch Sample.t2 = Ok next /\
  @normalizeStatsPatch Sample.engine next patch Sample.t3
  = Ok (set_updatedAt (VStr Sample.t3) next).
Proof.
  intros existing patch next.
  assert (H : @normalizeStatsPatch Sample.engine existing patch Sample.t2
              = Ok next) by (vm_compute; reflexivity).
  split; [exact H|]. exact (normalizeStatsPatch_twice _ _ _ _ H Sample.t3).
Defined.

(** A record without counters, as an update under an inherited name leaves
    it, mended in the counter the patch carries. *)
Lemma normalizeStatsPatch_counters_witness :
  let patch := VObj [(js "completedRounds", VNum (of_Z (-3)))] in
  let next := set_completedRounds zero
                (set_updatedAt (VStr Sample.t2) empty_object) in
  @normalizeStatsPatch Sample.engine empty_object patch Sample.t2 = Ok next /\
  counter_ok (completedRounds next).
Proof.
  intros patch next.
  assert (H : @normalizeStatsPatch Sample.engine empty_object patch Sample.t2
              = Ok next) by (vm_compute; reflexivity).
  split; [exact H|].
  destruct (normalizeStatsPatch_counters _ _ _ _ H) as (_ & _ & H3 & _).
  apply H3. right. unfold absent. simpl. discriminate.
Defined.

(** A patch whose name is blank leaves the name. *)
Lemma normalizeStatsPatch_name_witness :
  let existing := Sample.row "p1" "Dana" 2 5 in
  let patch := VObj [(js "name", VStr (js "   "))] in
  let next := set_updatedAt (VStr Sample.t2) existing in
  @normalizeStatsPatch Sample.engine existing patch Sample.t2 = Ok next /\
  name next <> None.
Proof.
  intros existing patch next.
  assert (H : @normalizeStatsPatch Sample.engine existing patch Sample.t2
              = Ok next) by (vm_compute; reflexivity).
  split; [exact H|].
  apply (proj2 (normalizeStatsPatch_name _ _ _ _ H)). discriminate.
Defined.






(** A data file of one entry. *)
Lemma loadState_loads_well_formed_rows_witness :
  exists st : state,
    @loadState Sample.engine initial_state
      (Sample.file_of [Sample.entry "p1" " Dana " []]) (fun _ => Sample.t0)
    = Some st /\
    Forall (fun kp => fst kp <> [] /\ id (snd kp) = Some (fst kp))
           (participants st).
Proof.
  eexists. split; [vm_compute; reflexivity|].
  eapply Forall_impl;
    [|eapply (@loadState_loads_well_formed_rows Sample.engine
                (Sample.file_of [Sample.entry "p1" " Dana " []])
                (fun _ => Sample.t0));
      vm_compute; reflexivity].
  intros kp (Hk & Hid & _). split; assumption.
Defined.


(** A start on a data file of two entries, the second without a name. *)
Lemma startup_rewrites_the_data_file_witness :
  let file := Sample.file_of [Sample.entry "p1" "Dana" [];
                              Sample.entry "p2" "  " []] in
  exists st w r,
    @startup Sample.engine file (fun _ => Sample.t0) Sample.t1
    = Some (st, (w, r)) /\
    @loadState Sample.engine initial_state file (fun _ => Sample.t0)
    = Some st /\
    List.length (participants st) = 1%nat /\
    ((r = Ok tt /\
      w = [@data_written Sample.engine st Sample.t1;
           @table_written Sample.engine st] /\
      @renderable Sample.engine st) \/
     ((exists e, r = Throw e) /\
      w = [@data_written Sample.engine st Sample.t1] /\
      ~ @renderable Sample.engine st)).
Proof.
  intros file. eexists _, _, _. split; [vm_compute; reflexivity|].
  split; [vm_compute; reflexivity|]. split; [vm_compute; reflexivity|].
  refine (proj1 (proj2 (@startup_rewrites_the_data_file Sample.engine file
            (fun _ => Sample.t0) Sample.t1 _ _ _ _))).
  vm_compute. reflexivity.
Defined.

(** An update whose body is the text of one brace. *)
Lemma handleApi_refuses_a_bad_body_witness :
  @handleApi Sample.engine Wire.parse Sample.one_row Wire.broken_request
             Sample.uuid1 Sample.t0 Sample.t1
  = Some (Sample.one_row, Refused 400 invalid_json, []).
Proof.
  refine (proj2 (proj2 (@handleApi_refuses_a_bad_body Sample.engine Wire.parse
            Sample.one_row (js "/group-api/update") [js "{"] ended
            Sample.uuid1 Sample.t0 Sample.t1 (or_intror eq_refl)))
          _ eq_refl _ eq_refl).
  - vm_compute. discriminate.
  - discriminate.
Defined.

(** A join and an update whose bodies are one empty chunk. *)
Lemma handleApi_on_an_empty_body_witness :
  @handleApi Sample.engine Wire.parse Sample.one_row
    {| method := POST; pathname := js "/group-api/join";
       chunks := [[]]; stream := ended |} Sample.uuid1 Sample.t0 Sample.t1
  = Some (Sample.one_row, Answered (Failed 400 name_required), []) /\
  @handleApi Sample.engine Wire.parse Sample.one_row
    {| method := POST; pathname := js "/group-api/update";
       chunks := [[]]; stream := ended |} Sample.uuid1 Sample.t0 Sample.t1
  = Some (Sample.one_row, Answered (Failed 404 participant_not_found), []).
Proof.
  exact (@handleApi_on_an_empty_body Sample.engine Wire.parse Sample.one_row
           [[]] Sample.uuid1 Sample.t0 Sample.t1 eq_refl).
Defined.

(** Scenario A's first join, and an update that names the id it returned. *)
Lemma update_after_join_witness :
  exists st1 p l w,
    @join Sample.engine initial_state (Sample.join_body "Dana")
          Sample.uuid1 Sample.t0 Sample.t1
    = Some (st1, Joined Sample.uuid1 p l, w) /\
    In p l /\ participants_get st1 Sample.uuid1 = Own p.
Proof.
  eexists _, _, _, _. split; [vm_compute; reflexivity|].
  pose proof (@update_after_join Sample.engine initial_state
                (Sample.join_body "Dana") Sample.uuid1 Sample.t0 Sample.t1
                _ _ _ _ (VObj [(js "id", VStr Sample.uuid1)])
                Sample.t2 Sample.t3 eq_refl) as H.
  destruct H as (Hin & Hown & _);
    [vm_compute; discriminate | vm_compute; reflexivity
     | vm_compute; reflexivity |].
  split; [exact Hin | exact Hown].
Defined.

(** The join on a registry of one row, and the scoreboard after it. *)
Lemma scoreboard_serves_what_was_persisted_witness :
  exists st' a data table,
    @handleApi Sample.engine Wire.parse Sample.one_row Wire.join_request
               Sample.uuid1 Sample.t0 Sample.t1
    = Some (st', a, [WriteData data; table]) /\
    @handleApi Sample.engine Wire.parse st'
      {| method := GET; pathname := js "/group-api/scoreboard";
         chunks := []; stream := ended |} Sample.uuid2 Sample.t2 Sample.t3
    = Some (st', Listed Sample.t2 (snapshot_participants data), []).
Proof.
  eexists _, _, _, _. split; [vm_compute; reflexivity|].
  eapply (@scoreboard_serves_what_was_persisted Sample.engine Wire.parse
            Sample.one_row Wire.join_request Sample.uuid1 Sample.t0 Sample.t1).
  - vm_compute. reflexivity.
  - left. reflexivity.
Defined.
